(** * valit: value iteration for finite Markov decision processes

    A shallow embedding of [valit/valit.py] (function [value_iteration]) and
    the properties of it that the specification states.

    Python values are modelled as follows.
    - A Python [float] and a [numpy.float64] are IEEE-754 binary64 numbers:
      Rocq's primitive [float], whose operations are the hardware ones.
    - [horizon] and [discount] are Python numbers, an [int] or a [float]
      (type [number]).
    - A [dict] is insertion ordered: an association list in which assigning to
      an existing key keeps the key's position ([dict_set]).
    - An exception is a value of [exn]; the two validation failures are not
      exceptions in the source, they are returned as strings ([ErrorString]).
    - [probs] and [rewards] are the caller's model functions.  In the first
      engine they are pure functions that return arrays, and every call of
      them is recorded in a call log threaded through the computation
      (monad [M]).  In the second engine they are callables with a state of
      their own that return an array or a list (monad [Env]); the first
      engine is an instance of the second. *)

From Stdlib Require Import String ZArith Bool List Lia.
From Stdlib Require Import Floats.
Import ListNotations.

Set Implicit Arguments.

(** ** Python numbers and exceptions *)

Inductive exn : Type :=
| ValueError
| TypeError
| OverflowError.

Inductive res (X : Type) : Type :=
| Val (x : X)
| Exc (e : exn).

Arguments Val {X} x.
Arguments Exc {X} e.

Inductive number : Type :=
| PyInt (z : Z)
| PyFloat (f : float).

(** The signed mantissa of a finite binary64 number [(-1)^s * m * 2^e]. *)
Definition signed (s : bool) (m : positive) : Z :=
  if s then Z.neg m else Z.pos m.

(** [x < 0] and [x > 1] on a Python number. *)
Definition num_lt0 (x : number) : bool :=
  match x with
  | PyInt z => (z <? 0)%Z
  | PyFloat f => (f <? 0)%float
  end.

Definition num_gt1 (x : number) : bool :=
  match x with
  | PyInt z => (1 <? z)%Z
  | PyFloat f => (1 <? f)%float
  end.

(** [int(x)]: the identity on an [int]; on a [float] truncation towards zero,
    [ValueError] on NaN and [OverflowError] on an infinity. *)
Definition py_int (x : number) : res Z :=
  match x with
  | PyInt z => Val z
  | PyFloat f =>
      match Prim2SF f with
      | S754_nan => Exc ValueError
      | S754_infinity _ => Exc OverflowError
      | S754_zero _ => Val 0%Z
      | S754_finite s m e =>
          if (0 <=? e)%Z then Val (signed s m * 2 ^ e)%Z
          else Val (Z.quot (signed s m) (2 ^ (- e)))%Z
      end
  end.

(** [z == x] for an [int] [z]: Python compares an [int] with a [float] by
    their exact values. *)
Definition int_eqb (z : Z) (x : number) : bool :=
  match x with
  | PyInt z' => (z =? z')%Z
  | PyFloat f =>
      match Prim2SF f with
      | S754_zero _ => (z =? 0)%Z
      | S754_finite s m e =>
          if (0 <=? e)%Z then (z =? signed s m * 2 ^ e)%Z
          else (z * 2 ^ (- e) =? signed s m)%Z
      | _ => false
      end
  end.

(** [range(x)]: [x] iterations for an [int] (none when it is negative),
    [TypeError] for a [float]. *)
Definition py_range (x : number) : res nat :=
  match x with
  | PyInt z => Val (Z.to_nat z)
  | PyFloat _ => Exc TypeError
  end.

(** The binary64 value of a Python number in a product with a
    [numpy.float64]: an [int] is converted, rounding to nearest even. *)
Definition to_float (x : number) : float :=
  match x with
  | PyInt z => SF2Prim (binary_normalize prec emax z 0 false)
  | PyFloat f => f
  end.

(** ** Built-ins: [sum], [max], and numpy's elementwise product *)

(** [sum(v)]: starts from [0] and adds the entries from left to right. *)
Definition py_sum (v : list float) : float :=
  fold_left PrimFloat.add v 0%float.

(** One step of [max]: the running maximum [best] is replaced by [x] only
    when [key x > key best]. *)
Definition max_step {X : Type} (key : X -> float) (best x : X) : X :=
  if (key best <? key x)%float then x else best.

(** [max(xs, key=key)]: [ValueError] on an empty argument, else the first
    item that no later item exceeds. *)
Definition py_max_by {X : Type} (key : X -> float) (xs : list X) : res X :=
  match xs with
  | [] => Exc ValueError
  | x :: rest => Val (fold_left (max_step key) rest x)
  end.

Definition py_max (xs : list float) : res float :=
  py_max_by (fun x => x) xs.

(** [p * v] for a one-dimensional array [p] and a list [v]: elementwise on
    equal lengths; an operand of length one is broadcast along the other;
    any other pair of lengths is a [ValueError]. *)
Definition numpy_multiply (p v : list float) : res (list float) :=
  if (length p =? length v)%nat then
    Val (map (fun xy => (fst xy * snd xy)%float) (combine p v))
  else
    match p, v with
    | [x], _ => Val (map (fun y => (x * y)%float) v)
    | _, [y] => Val (map (fun x => (x * y)%float) p)
    | _, _ => Exc ValueError
    end.

(** ** Insertion-ordered dictionaries *)

Section Dict.
Variables K V : Type.
Variable K_eq_dec : forall x y : K, {x = y} + {x <> y}.

Definition dict : Type := list (K * V).

(** [d[k] = v] *)
Fixpoint dict_set (k : K) (v : V) (d : dict) : dict :=
  match d with
  | [] => [(k, v)]
  | (k', v') :: d' =>
      if K_eq_dec k k' then (k', v) :: d'
      else (k', v') :: dict_set k v d'
  end.

(** [d.get(k)] *)
Fixpoint dict_get (k : K) (d : dict) : option V :=
  match d with
  | [] => None
  | (k', v') :: d' => if K_eq_dec k k' then Some v' else dict_get k d'
  end.

(** [list(d)] and [list(d.values())] *)
Definition keys (d : dict) : list K := map fst d.
Definition values (d : dict) : list V := map snd d.

(** [dict(zip(ks, [v]*len(ks)))]; the source's [v] is the [int] [0], which
    every later use converts to the [float] [0.0]. *)
Definition dict_fromkeys (ks : list K) (v : V) : dict :=
  fold_left (fun d k => dict_set k v d) ks [].
End Dict.

Arguments dict_get {K V} K_eq_dec k d.
Arguments dict_set {K V} K_eq_dec k v d.
Arguments keys {K V} d.
Arguments values {K V} d.
Arguments dict_fromkeys {K V} K_eq_dec ks v.

(** ** The engine *)

(** What [value_iteration] returns: one of its two error strings, or the
    pair [(policy_dict, val_dict)]. *)
Inductive output (State Action : Type) : Type :=
| ErrorString (msg : string)
| Result (policy_dict : dict State Action) (val_dict : dict State float).

Arguments ErrorString {State Action} msg.
Arguments Result {State Action} policy_dict val_dict.

(** A call of one of the caller's two model functions. *)
Inductive call (State Action : Type) : Type :=
| CallRewards (s : State) (a : Action)
| CallProbs (s : State) (a : Action).

Arguments CallRewards {State Action} s a.
Arguments CallProbs {State Action} s a.

(** The two strings of lines 38 and 40. *)
Definition discount_error : string :=
  "Error: the discount must be between 0 and 1".

Definition horizon_error : string :=
  "Error: the horizon must be a positive integer".

Section Engine.
Variables State Action : Type.
Variable State_eq_dec : forall x y : State, {x = y} + {x <> y}.
Variable Action_eq_dec : forall x y : Action, {x = y} + {x <> y}.

(** The call log, most recent call first. *)
Definition log : Type := list (call State Action).

(** Computations that may raise and that record the model calls. *)
Definition M (X : Type) : Type := log -> res X * log.

Definition ret {X : Type} (x : X) : M X := fun t => (Val x, t).

Definition bind {X Y : Type} (m : M X) (k : X -> M Y) : M Y :=
  fun t =>
    match m t with
    | (Val x, t') => k x t'
    | (Exc e, t') => (Exc e, t')
    end.

Definition lift {X : Type} (r : res X) : M X := fun t => (r, t).

Notation "x <- m ;; k" := (bind m (fun x => k))
  (at level 61, m at next level, right associativity).

Variable probs : State -> Action -> list float.
Variable rewards : State -> Action -> float.

Definition call_rewards (s : State) (a : Action) : M float :=
  fun t => (Val (rewards s a), CallRewards s a :: t).

Definition call_probs (s : State) (a : Action) : M (list float) :=
  fun t => (Val (probs s a), CallProbs s a :: t).

Variable discount : number.

(** Lines 54 and 60:
    [rewards(state = s, action = a)
       + discount*sum(probs(state = s, action = a)*list(val_dict.values()))] *)
Definition q_value (val_dict : dict State float) (s : State) (a : Action)
  : M float :=
  r <- call_rewards s a ;;
  p <- call_probs s a ;;
  pv <- lift (numpy_multiply p (values val_dict)) ;;
  ret (r + to_float discount * py_sum pv)%float.

(** Lines 50-54 and 59-60: [for a in actions: val_action[a] = ...].
    [val_action] is one dictionary, created once and shared by all states
    and sweeps. *)
Fixpoint eval_actions (val_dict : dict State float) (s : State)
    (actions : list Action) (val_action : dict Action float)
  : M (dict Action float) :=
  match actions with
  | [] => ret val_action
  | a :: rest =>
      q <- q_value val_dict s a ;;
      eval_actions val_dict s rest (dict_set Action_eq_dec a q val_action)
  end.

(** Lines 49-55: [for s in states: ...; val_dict[s] = float(max(...))].
    The assignment is to the dictionary the next state reads. *)
Fixpoint backup_sweep (actions : list Action) (states : list State)
    (val_dict : dict State float) (val_action : dict Action float)
  : M (dict State float * dict Action float) :=
  match states with
  | [] => ret (val_dict, val_action)
  | s :: rest =>
      val_action' <- eval_actions val_dict s actions val_action ;;
      v <- lift (py_max (values val_action')) ;;
      backup_sweep actions rest (dict_set State_eq_dec s v val_dict)
        val_action'
  end.

(** Lines 47-55: [for k in range(horizon)]. *)
Fixpoint iterate (n : nat) (states : list State) (actions : list Action)
    (val_dict : dict State float) (val_action : dict Action float)
  : M (dict State float * dict Action float) :=
  match n with
  | O => ret (val_dict, val_action)
  | S n' =>
      st <- backup_sweep actions states val_dict val_action ;;
      iterate n' states actions (fst st) (snd st)
  end.

(** Lines 57-61: the policy, [max(val_action, key = val_action.get)].
    [max] walks the keys of [val_action] and compares the values stored
    under them, so it is [max] over the items by their value. *)
Fixpoint extract_policy (actions : list Action) (states : list State)
    (val_dict : dict State float) (val_action : dict Action float)
    (policy_dict : dict State Action)
  : M (dict State Action) :=
  match states with
  | [] => ret policy_dict
  | s :: rest =>
      val_action' <- eval_actions val_dict s actions val_action ;;
      best <- lift (py_max_by snd val_action') ;;
      extract_policy actions rest val_dict val_action'
        (dict_set State_eq_dec s (fst best) policy_dict)
  end.

(** Lines 43-62, after the two checks. *)
Definition run (states : list State) (actions : list Action)
    (horizon : number) : M (output State Action) :=
  n <- lift (py_range horizon) ;;
  st <- iterate n states actions
          (dict_fromkeys State_eq_dec states 0%float) [] ;;
  policy_dict <- extract_policy actions states (fst st) (snd st) [] ;;
  ret (Result policy_dict (fst st)).

(** Lines 39-40: [horizon < 0 or int(horizon) != horizon]. *)
Definition horizon_invalid (horizon : number) : M bool :=
  if num_lt0 horizon then ret true
  else
    i <- lift (py_int horizon) ;;
    ret (negb (int_eqb i horizon)).

(** Lines 36-62. *)
Definition value_iteration_body (states : list State)
    (actions : list Action) (horizon : number) : M (output State Action) :=
  if num_gt1 discount || num_lt0 discount then
    ret (ErrorString discount_error)
  else
    bad <- horizon_invalid horizon ;;
    if (bad : bool) then ret (ErrorString horizon_error)
    else run states actions horizon.

(** The value of the expression of lines 54 and 60 without the call log:
    what [q_value] computes. *)
Definition q (val_dict : dict State float) (s : State) (a : Action)
  : res float :=
  match numpy_multiply (probs s a) (values val_dict) with
  | Val pv => Val (rewards s a + to_float discount * py_sum pv)%float
  | Exc e => Exc e
  end.

(** [q_lt v s a b]: under the value function [v], action [b] has a strictly
    greater q-value than action [a] at state [s]. *)
Definition q_lt (val_dict : dict State float) (s : State) (a b : Action)
  : Prop :=
  exists x y, q val_dict s a = Val x /\ q val_dict s b = Val y /\
              (x <? y)%float = true.
End Engine.

Arguments ret {State Action X} x.
Arguments bind {State Action X Y} m k.
Arguments lift {State Action X} r.

(** [value_iteration(states, actions, probs, rewards, horizon, discount)] *)
Definition value_iteration {State Action : Type}
    (State_eq_dec : forall x y : State, {x = y} + {x <> y})
    (Action_eq_dec : forall x y : Action, {x = y} + {x <> y})
    (states : list State) (actions : list Action)
    (probs : State -> Action -> list float)
    (rewards : State -> Action -> float)
    (horizon discount : number) : M State Action (output State Action) :=
  value_iteration_body State_eq_dec Action_eq_dec probs rewards discount
    states actions horizon.

(** The outcome of a call made with the call log [t], and the log after it. *)
Definition outcome {State Action X : Type} (m : M State Action X)
    (t : log State Action) : res X := fst (m t).

Definition calls {State Action X : Type} (m : M State Action X)
    (t : log State Action) : log State Action := snd (m t).

(** A computation whose result, and whose calls of the model functions, do
    not depend on the calls made before it. *)
Definition oblivious {State Action X : Type} (m : M State Action X) : Prop :=
  exists r l, forall t, m t = (r, l ++ t).

(** ** Vocabulary of the specification *)

(** The call failed with one of the two parameter errors. *)
Definition invalid_parameter {State Action : Type}
    (r : res (output State Action)) : Prop :=
  r = Val (ErrorString discount_error) \/ r = Val (ErrorString horizon_error).

(** The call returned a policy and a value function. *)
Definition returned_result {State Action : Type}
    (r : res (output State Action)) : Prop :=
  exists policy_dict val_dict, r = Val (Result policy_dict val_dict).

(** A number below [0] or above [1]; a number of the closed interval. *)
Definition outside_unit_interval (x : number) : Prop :=
  match x with
  | PyInt z => (z < 0 \/ 1 < z)%Z
  | PyFloat f => (f <? 0)%float = true \/ (1 <? f)%float = true
  end.

Definition in_unit_interval (x : number) : Prop :=
  match x with
  | PyInt z => (0 <= z <= 1)%Z
  | PyFloat f => (0 <=? f)%float = true /\ (f <=? 1)%float = true
  end.

Definition negative (x : number) : Prop :=
  match x with
  | PyInt z => (z < 0)%Z
  | PyFloat f => (f <? 0)%float = true
  end.

(** A finite [float] [(-1)^s * m * 2^e] whose value is not an integer:
    [e < 0] and [2^(-e)] does not divide [m]. *)
Definition non_integral (x : number) : Prop :=
  match x with
  | PyInt _ => False
  | PyFloat f =>
      exists s m e, Prim2SF f = S754_finite s m e /\ (e < 0)%Z /\
                    ~ (2 ^ (- e) | Z.pos m)%Z
  end.

(** A horizon the second check accepts and [range] can use. *)
Definition valid_horizon (x : number) : Prop :=
  exists n, x = PyInt n /\ (0 <= n)%Z.

(** A [float] that is neither NaN nor an infinity, and one that is [0.0] or
    [-0.0]. *)
Definition finite (x : float) : Prop :=
  match Prim2SF x with
  | S754_zero _ | S754_finite _ _ _ => True
  | _ => False
  end.

Definition zero (x : float) : Prop :=
  match Prim2SF x with
  | S754_zero _ => True
  | _ => False
  end.

(** The keys of a dictionary built by assigning to the keys [l] in turn: the
    members of [l] in the order of their first occurrences. *)
Section Uniq.
Variable K : Type.
Variable K_eq_dec : forall x y : K, {x = y} + {x <> y}.

Definition add_key (ks : list K) (k : K) : list K :=
  if in_dec K_eq_dec k ks then ks else ks ++ [k].

Definition uniq (l : list K) : list K := fold_left add_key l [].
End Uniq.

Arguments add_key {K} K_eq_dec ks k.
Arguments uniq {K} K_eq_dec l.

(** [for k in l: d[k] = f(k)] *)
Definition assign_all {K V : Type}
    (K_eq_dec : forall x y : K, {x = y} + {x <> y})
    (f : K -> V) (l : list K) (d : dict K V) : dict K V :=
  fold_left (fun d k => dict_set K_eq_dec k (f k) d) l d.

(** The dictionary with the keys [ks] and the value [f k] under [k]. *)
Definition graph {K V : Type} (f : K -> V) (ks : list K) : dict K V :=
  map (fun k => (k, f k)) ks.

(** The lengths numpy accepts in [p * v]: equal, or one of them 1. *)
Definition compatible (p : list float) (n : nat) : bool :=
  (length p =? n)%nat || (length p =? 1)%nat || (n =? 1)%nat.

Section Greedy.
Variables State Action : Type.
Variable Action_eq_dec : forall x y : Action, {x = y} + {x <> y}.
Variable probs : State -> Action -> list float.
Variable rewards : State -> Action -> float.
Variable discount : number.

(** The q-value is defined: the transition vector can be multiplied with
    the values. *)
Definition q_ok (val_dict : dict State float) (s : State) (a : Action)
  : bool :=
  compatible (probs s a) (length val_dict).

(** The q-value where it is defined. *)
Definition q_at (val_dict : dict State float) (s : State) (a : Action)
  : float :=
  match q probs rewards discount val_dict s a with
  | Val x => x
  | Exc _ => 0%float
  end.

(** [val_action] after the loop over [actions] at state [s]. *)
Definition q_table (actions : list Action) (val_dict : dict State float)
    (s : State) : dict Action float :=
  graph (q_at val_dict s) (uniq Action_eq_dec actions).

(** The action [max] selects at state [s]; [a0] stands for it when there is
    no action. *)
Definition greedy (actions : list Action) (val_dict : dict State float)
    (a0 : Action) (s : State) : Action :=
  match py_max_by snd (q_table actions val_dict s) with
  | Val best => fst best
  | Exc _ => a0
  end.

(** [val_action] is empty before the first state, and holds the actions in
    the order of their first occurrences afterwards. *)
Definition actions_table (actions : list Action)
    (val_action : dict Action float) : Prop :=
  keys val_action = [] \/ keys val_action = uniq Action_eq_dec actions.

(** Every transition vector of the model can be multiplied with [n]
    values. *)
Definition all_ok (actions : list Action) (val_dict : dict State float)
    (states : list State) : bool :=
  forallb (fun s => forallb (q_ok val_dict s) actions) states.
End Greedy.

(** ** The sweep the specification describes

    Section 4.1 of the specification asks for a synchronous sweep: every
    state is backed up from a snapshot of the previous sweep's values, and
    the new values replace the old ones when the sweep is complete.  These
    definitions follow the specification's words, to be compared with
    [backup_sweep]. *)

Section Synchronous.
Variables State Action : Type.
Variable State_eq_dec : forall x y : State, {x = y} + {x <> y}.
Variable probs : State -> Action -> list float.
Variable rewards : State -> Action -> float.
Variable discount : number.

Fixpoint q_all (snapshot : dict State float) (s : State)
    (actions : list Action) : res (list float) :=
  match actions with
  | [] => Val []
  | a :: rest =>
      match q probs rewards discount snapshot s a with
      | Exc e => Exc e
      | Val x =>
          match q_all snapshot s rest with
          | Exc e => Exc e
          | Val xs => Val (x :: xs)
          end
      end
  end.

Fixpoint synchronous_sweep (actions : list Action) (states : list State)
    (snapshot new : dict State float) : res (dict State float) :=
  match states with
  | [] => Val new
  | s :: rest =>
      match q_all snapshot s actions with
      | Exc e => Exc e
      | Val qs =>
          match py_max qs with
          | Exc e => Exc e
          | Val v =>
              synchronous_sweep actions rest snapshot
                (dict_set State_eq_dec s v new)
          end
      end
  end.

Fixpoint synchronous_iterate (n : nat) (states : list State)
    (actions : list Action) (val_dict : dict State float)
  : res (dict State float) :=
  match n with
  | O => Val val_dict
  | S n' =>
      match synchronous_sweep actions states val_dict val_dict with
      | Exc e => Exc e
      | Val new => synchronous_iterate n' states actions new
      end
  end.
End Synchronous.

(** ** Example models *)

Open Scope string_scope.
Open Scope list_scope.

(** The two-state chain: [s0] moves to [s1] with reward 1, [s1] moves to
    [s0] with reward 0. *)
Definition chain_probs (s a : string) : list float :=
  if string_dec s "s0" then [0; 1]%float else [1; 0]%float.

Definition chain_rewards (s a : string) : float :=
  if string_dec s "s0" then 1%float else 0%float.

Definition chain (horizon discount : number)
  : M string string (output string string) :=
  value_iteration string_dec string_dec ["s0"; "s1"] ["a0"]
    chain_probs chain_rewards horizon discount.

(** One state with a self-loop and the constant reward 5. *)
Definition loop_probs (s a : string) : list float := [1%float].

Definition loop_rewards (s a : string) : float := 5%float.

(** The literal [0.9] of Python: the binary64 number nearest to 9/10. *)
Definition nine_tenths : float := 0x1.ccccccccccccdp-1%float.

Definition self_loop (horizon discount : number)
  : M string string (output string string) :=
  value_iteration string_dec string_dec ["s0"] ["a0"]
    loop_probs loop_rewards horizon discount.

(** One state whose transition vector sums to one half. *)
Definition half_probs (s a : string) : list float := [0.5%float].

(** One state and two actions with the same reward: a tie at every
    horizon. *)
Definition tie_rewards (s a : string) : float := 1%float.

Definition tie (horizon discount : number)
  : M string string (output string string) :=
  value_iteration string_dec string_dec ["s0"] ["a0"; "a1"]
    loop_probs tie_rewards horizon discount.

(** Three states whose transition vectors have two entries. *)
Definition short_vectors (horizon discount : number)
  : M string string (output string string) :=
  value_iteration string_dec string_dec ["s0"; "s1"; "s2"] ["a0"]
    chain_probs chain_rewards horizon discount.


(** ** The model functions as Python callables

    [probs] and [rewards] are arbitrary callables: a call may read and
    change a state of the caller's own (a cache, a counter, a random
    generator), here a value of type [W], and [probs] may return a Python
    list as well as a numpy array (docstring, lines 15-16).  The engine
    below is the code of lines 36-62 over such callables; the engine above
    is its instance for pure functions that return arrays and whose calls
    are logged ([value_iteration_env_logged]). *)

Inductive vector : Type :=
| NdArray (v : list float)
| PyList (v : list float).

(** [p * list(val_dict.values())]: numpy's product for an array, and
    [TypeError] for a list (a list is only multiplied by an [int]). *)
Definition py_multiply (p : vector) (v : list float) : res (list float) :=
  match p with
  | NdArray a => numpy_multiply a v
  | PyList _ => Exc TypeError
  end.

Section Callables.
Variables State Action W : Type.
Variable State_eq_dec : forall x y : State, {x = y} + {x <> y}.
Variable Action_eq_dec : forall x y : Action, {x = y} + {x <> y}.

(** Computations that may raise, over the state of the callables. *)
Definition Env (X : Type) : Type := W -> res X * W.

Definition env_ret {X : Type} (x : X) : Env X := fun w => (Val x, w).

Definition env_bind {X Y : Type} (m : Env X) (k : X -> Env Y) : Env Y :=
  fun w =>
    match m w with
    | (Val x, w') => k x w'
    | (Exc e, w') => (Exc e, w')
    end.

Definition env_lift {X : Type} (r : res X) : Env X := fun w => (r, w).

(** A call of a callable that returns. *)
Definition env_call {X : Type} (f : W -> X * W) : Env X :=
  fun w => (Val (fst (f w)), snd (f w)).

Notation "x <- m ;; k" := (env_bind m (fun x => k))
  (at level 61, m at next level, right associativity).

Variable probs : State -> Action -> W -> vector * W.
Variable rewards : State -> Action -> W -> float * W.
Variable discount : number.

(** Lines 54 and 60. *)
Definition q_value_env (val_dict : dict State float) (s : State)
    (a : Action) : Env float :=
  r <- env_call (rewards s a) ;;
  p <- env_call (probs s a) ;;
  pv <- env_lift (py_multiply p (values val_dict)) ;;
  env_ret (r + to_float discount * py_sum pv)%float.

(** Lines 50-54 and 59-60. *)
Fixpoint eval_actions_env (val_dict : dict State float) (s : State)
    (actions : list Action) (val_action : dict Action float)
  : Env (dict Action float) :=
  match actions with
  | [] => env_ret val_action
  | a :: rest =>
      q <- q_value_env val_dict s a ;;
      eval_actions_env val_dict s rest
        (dict_set Action_eq_dec a q val_action)
  end.

(** Lines 49-55. *)
Fixpoint backup_sweep_env (actions : list Action) (states : list State)
    (val_dict : dict State float) (val_action : dict Action float)
  : Env (dict State float * dict Action float) :=
  match states with
  | [] => env_ret (val_dict, val_action)
  | s :: rest =>
      val_action' <- eval_actions_env val_dict s actions val_action ;;
      v <- env_lift (py_max (values val_action')) ;;
      backup_sweep_env actions rest (dict_set State_eq_dec s v val_dict)
        val_action'
  end.

(** Lines 47-55. *)
Fixpoint iterate_env (n : nat) (states : list State)
    (actions : list Action) (val_dict : dict State float)
    (val_action : dict Action float)
  : Env (dict State float * dict Action float) :=
  match n with
  | O => env_ret (val_dict, val_action)
  | S n' =>
      st <- backup_sweep_env actions states val_dict val_action ;;
      iterate_env n' states actions (fst st) (snd st)
  end.

(** Lines 57-61. *)
Fixpoint extract_policy_env (actions : list Action) (states : list State)
    (val_dict : dict State float) (val_action : dict Action float)
    (policy_dict : dict State Action)
  : Env (dict State Action) :=
  match states with
  | [] => env_ret policy_dict
  | s :: rest =>
      val_action' <- eval_actions_env val_dict s actions val_action ;;
      best <- env_lift (py_max_by snd val_action') ;;
      extract_policy_env actions rest val_dict val_action'
        (dict_set State_eq_dec s (fst best) policy_dict)
  end.

(** Lines 43-62, after the two checks. *)
Definition run_env (states : list State) (actions : list Action)
    (horizon : number) : Env (output State Action) :=
  n <- env_lift (py_range horizon) ;;
  st <- iterate_env n states actions
          (dict_fromkeys State_eq_dec states 0%float) [] ;;
  policy_dict <- extract_policy_env actions states (fst st) (snd st) [] ;;
  env_ret (Result policy_dict (fst st)).

(** Lines 39-40. *)
Definition horizon_invalid_env (horizon : number) : Env bool :=
  if num_lt0 horizon then env_ret true
  else
    i <- env_lift (py_int horizon) ;;
    env_ret (negb (int_eqb i horizon)).

(** Lines 36-62. *)
Definition value_iteration_env_body (states : list State)
    (actions : list Action) (horizon : number)
  : Env (output State Action) :=
  if num_gt1 discount || num_lt0 discount then
    env_ret (ErrorString discount_error)
  else
    bad <- horizon_invalid_env horizon ;;
    if (bad : bool) then env_ret (ErrorString horizon_error)
    else run_env states actions horizon.
End Callables.

(** [value_iteration(states, actions, probs, rewards, horizon, discount)]
    over callables with the state [W]. *)
Definition value_iteration_env {State Action W : Type}
    (State_eq_dec : forall x y : State, {x = y} + {x <> y})
    (Action_eq_dec : forall x y : Action, {x = y} + {x <> y})
    (states : list State) (actions : list Action)
    (probs : State -> Action -> W -> vector * W)
    (rewards : State -> Action -> W -> float * W)
    (horizon discount : number) : Env W (output State Action) :=
  value_iteration_env_body State_eq_dec Action_eq_dec probs rewards discount
    states actions horizon.

(** A pure callable: what it returns does not depend on the state it is
    called in (it may still change that state). *)
Definition pure_model {State Action W X : Type}
    (f : State -> Action -> W -> X * W) : Prop :=
  forall s a w w', fst (f s a w) = fst (f s a w').

(** The callables of the engine above: pure functions that return arrays,
    with a log of the calls as their state. *)
Definition logged_probs {State Action : Type}
    (probs : State -> Action -> list float) (s : State) (a : Action)
    (t : log State Action) : vector * log State Action :=
  (NdArray (probs s a), CallProbs s a :: t).

Definition logged_rewards {State Action : Type}
    (rewards : State -> Action -> float) (s : State) (a : Action)
    (t : log State Action) : float * log State Action :=
  (rewards s a, CallRewards s a :: t).

(** The entries of a vector. *)
Definition entries (p : vector) : list float :=
  match p with
  | NdArray v => v
  | PyList v => v
  end.

(** The outcome of a call made in the state [w] of the callables. *)
Definition env_outcome {W X : Type} (m : Env W X) (w : W) : res X :=
  fst (m w).

(** Two computations with the same outcome, whatever the states of their
    callables. *)
Definition agree {W1 W2 X : Type} (m1 : Env W1 X) (m2 : Env W2 X) : Prop :=
  forall w1 w2, fst (m1 w1) = fst (m2 w2).

(** ** The calls a run makes

    The model calls in the order they are made: at each state, for each
    action, [rewards] and then [probs] (lines 54 and 60); a sweep visits the
    states in order (lines 49-50 and 58-59); a run makes [horizon] sweeps
    and the policy pass. *)

Section Calls.
Variables State Action : Type.

Definition state_calls (actions : list Action) (s : State)
  : list (call State Action) :=
  flat_map (fun a => [CallRewards s a; CallProbs s a]) actions.

Definition sweep_calls (states : list State) (actions : list Action)
  : list (call State Action) :=
  flat_map (state_calls actions) states.

Definition expected_calls (n : nat) (states : list State)
    (actions : list Action) : list (call State Action) :=
  concat (repeat (sweep_calls states actions) n) ++ sweep_calls states actions.

Definition is_prefix (l full : list (call State Action)) : Prop :=
  exists rest, full = l ++ rest.

(** [m] makes the calls [full] in this order when it returns, and a prefix
    of them when it raises. *)
Definition logs {X : Type} (m : M State Action X)
    (full : list (call State Action)) : Prop :=
  forall t, exists done,
    calls m t = rev done ++ t /\ is_prefix done full /\
    (forall x, outcome m t = Val x -> done = full).
End Calls.

(** The number of sweeps of [range(horizon)]. *)
Definition sweeps (horizon : number) : nat :=
  match horizon with
  | PyInt z => Z.to_nat z
  | PyFloat _ => 0
  end.

(** Callables with a call counter as their state: the chain's model
    functions counting their calls; a reward that is 1 only in the first
    call ever made; and the chain's transition vectors as lists. *)
Definition counted_probs (s a : string) (n : nat) : vector * nat :=
  (NdArray (chain_probs s a), S n).

Definition counted_rewards (s a : string) (n : nat) : float * nat :=
  (chain_rewards s a, S n).

Definition fading_rewards (s a : string) (n : nat) : float * nat :=
  (match n with O => 1%float | S _ => 0%float end, S n).

Definition list_probs (s a : string) (n : nat) : vector * nat :=
  (PyList (chain_probs s a), S n).

(** The value the self-loop model reaches after 100 sweeps at discount 0.9,
    about 49.99867193. *)
Definition self_loop_value : float := 0x1.8ffd47b5782d4p+5%float.

(** * Properties *)

(** ** The order of binary64 numbers *)

Lemma SFltb_irrefl (x : spec_float) : SFltb x x = false.
Proof.
  unfold SFltb, SFcompare.
  destruct x as [s | s | | s m e]; try destruct s; auto;
    rewrite Z.compare_refl;
    change (Pos.compare_cont Eq m m) with (Pos.compare m m);
    rewrite Pos.compare_refl; reflexivity.
Qed.

Lemma SFltb_trans (x y z : spec_float) :
  SFltb x y = true -> SFltb y z = true -> SFltb x z = true.
Proof.
  unfold SFltb, SFcompare.
  destruct x as [sx | sx | | sx mx ex], y as [sy | sy | | sy my ey],
      z as [sz | sz | | sz mz ez];
    try destruct sx; try destruct sy; try destruct sz; simpl;
    try congruence.
  all: change (Pos.compare_cont Eq) with Pos.compare.
  all: destruct (Z.compare_spec ex ey), (Z.compare_spec ey ez),
         (Z.compare_spec ex ez); try lia; subst; try congruence.
  all: destruct (Pos.compare_spec mx my), (Pos.compare_spec my mz),
         (Pos.compare_spec mx mz); simpl; try congruence; try lia.
Qed.

Lemma float_ltb_irrefl (x : float) : (x <? x)%float = false.
Proof. rewrite ltb_spec. apply SFltb_irrefl. Qed.

Lemma float_ltb_trans (x y z : float) :
  (x <? y)%float = true -> (y <? z)%float = true -> (x <? z)%float = true.
Proof. rewrite !ltb_spec. apply SFltb_trans. Qed.

Lemma SFleb_not_ltb (x y : spec_float) :
  SFleb x y = true -> SFltb y x = false.
Proof.
  unfold SFleb, SFltb, SFcompare.
  destruct x as [sx | sx | | sx mx ex], y as [sy | sy | | sy my ey];
    try destruct sx; try destruct sy; simpl; try congruence.
  all: change (Pos.compare_cont Eq) with Pos.compare.
  all: destruct (Z.compare_spec ex ey), (Z.compare_spec ey ex);
         try lia; subst; try congruence.
  all: destruct (Pos.compare_spec mx my), (Pos.compare_spec my mx);
         simpl; try congruence; try lia.
Qed.

Lemma float_leb_not_ltb (x y : float) :
  (x <=? y)%float = true -> (y <? x)%float = false.
Proof. rewrite leb_spec, ltb_spec. apply SFleb_not_ltb. Qed.

Lemma in_unit_interval_check (discount : number) :
  in_unit_interval discount -> num_gt1 discount || num_lt0 discount = false.
Proof.
  destruct discount as [z | f]; simpl.
  - intros H. apply orb_false_iff. split; apply Z.ltb_ge; lia.
  - intros [H0 H1].
    now rewrite (float_leb_not_ltb H0), (float_leb_not_ltb H1).
Qed.

(** ** Zeros and finite numbers *)

Lemma finite_between (x y z : float) :
  finite x -> finite z ->
  (x <=? y)%float = true -> (y <=? z)%float = true -> finite y.
Proof.
  unfold finite. rewrite !leb_spec. unfold SFleb, SFcompare.
  destruct (Prim2SF x) as [sx | sx | | sx mx ex],
      (Prim2SF y) as [sy | sy | | sy my ey],
      (Prim2SF z) as [sz | sz | | sz mz ez];
    try tauto; try destruct sy; try discriminate; try destruct sx;
    try destruct sz; try discriminate.
Qed.

Lemma finite_unit_interval (d : number) :
  in_unit_interval d -> finite (to_float d).
Proof.
  destruct d as [z | f]; simpl.
  - intros H. assert (E : z = 0%Z \/ z = 1%Z) by lia.
    destruct E as [-> | ->]; vm_compute; exact I.
  - intros [H0 H1].
    apply (@finite_between 0%float f 1%float); auto; vm_compute; exact I.
Qed.

Lemma zero_mul_r (x y : float) : finite x -> zero y -> zero (x * y).
Proof.
  unfold finite, zero. rewrite mul_spec. unfold SF64mul, SFmul.
  destruct (Prim2SF x), (Prim2SF y); tauto.
Qed.

Lemma zero_add (x y : float) : zero x -> zero y -> zero (x + y).
Proof.
  unfold zero. rewrite add_spec. unfold SF64add, SFadd.
  destruct (Prim2SF x) as [sx | | |], (Prim2SF y) as [sy | | |]; try tauto.
  destruct sx, sy; tauto.
Qed.

Lemma zero_py_sum (v : list float) : Forall zero v -> zero (py_sum v).
Proof.
  unfold py_sum. assert (H0 : zero 0%float) by (vm_compute; exact I).
  revert H0. generalize 0%float as acc.
  induction v as [| x v IH]; intros acc Hacc H; simpl; [exact Hacc |].
  inversion H; subst. apply IH; [now apply zero_add | assumption].
Qed.

(** Adding a zero changes no comparison. *)
Lemma add_zero_ltb_l (r z y : float) :
  zero z -> ((r + z) <? y)%float = (r <? y)%float.
Proof.
  unfold zero. rewrite !ltb_spec, add_spec.
  unfold SF64add, SFadd, SFltb, SFcompare.
  destruct (Prim2SF r) as [sr | sr | | sr mr er],
      (Prim2SF z) as [sz | | |]; try tauto; intros _; try reflexivity.
  destruct sr, sz; reflexivity.
Qed.

Lemma add_zero_ltb_r (r z y : float) :
  zero z -> (y <? (r + z))%float = (y <? r)%float.
Proof.
  unfold zero. rewrite !ltb_spec, add_spec.
  unfold SF64add, SFadd, SFltb, SFcompare.
  destruct (Prim2SF r) as [sr | sr | | sr mr er],
      (Prim2SF z) as [sz | | |]; try tauto; intros _; try reflexivity.
  destruct sr, sz; destruct (Prim2SF y); reflexivity.
Qed.

(** ** [max] *)

Section Max.
Variable X : Type.
Variable key : X -> float.

Lemma max_fold_In (l : list X) (x : X) :
  In (fold_left (max_step key) l x) (x :: l).
Proof.
  revert x. induction l as [| y l IH]; intros x; simpl; [now left |].
  destruct (IH (max_step key x y)) as [E | HIn]; [| now right; right].
  rewrite <- E. unfold max_step.
  destruct (key x <? key y)%float; [right; now left | now left].
Qed.

(** The running maximum never decreases. *)
Lemma max_fold_above (l : list X) (x : X) :
  fold_left (max_step key) l x = x \/
  (key x <? key (fold_left (max_step key) l x))%float = true.
Proof.
  revert x. induction l as [| y l IH]; intros x; simpl; [now left |].
  unfold max_step at 2 4.
  destruct (key x <? key y)%float eqn:Hxy.
  - right. destruct (IH y) as [E | Hlt]; [now rewrite E |].
    eapply float_ltb_trans; eassumption.
  - apply IH.
Qed.

(** No item exceeds the result of [max]. *)
Lemma max_fold_maximal (l : list X) (x y : X) :
  In y (x :: l) ->
  (key (fold_left (max_step key) l x) <? key y)%float = false.
Proof.
  revert x. induction l as [| z l IH]; intros x HIn.
  - destruct HIn as [<- | []]. simpl. apply float_ltb_irrefl.
  - simpl. destruct HIn as [Ey | [Ey | HIn]]; try subst y.
    + unfold max_step at 2.
      destruct (key x <? key z)%float eqn:Hxz.
      * destruct (max_fold_above l z) as [E | Hlt].
        -- rewrite E.
           destruct (key z <? key x)%float eqn:Hzx; [| reflexivity].
           pose proof (float_ltb_trans Hxz Hzx) as Hxx.
           now rewrite float_ltb_irrefl in Hxx.
        -- destruct (key (fold_left (max_step key) l z) <? key x)%float
             eqn:Hrx; [| reflexivity].
           pose proof (float_ltb_trans Hlt Hrx) as Hzx.
           pose proof (float_ltb_trans Hxz Hzx) as Hxx.
           now rewrite float_ltb_irrefl in Hxx.
      * apply IH. now left.
    + unfold max_step at 2.
      destruct (key x <? key z)%float eqn:Hxz.
      * apply IH. now left.
      * destruct (max_fold_above l x) as [E | Hlt]; [now rewrite E |].
        destruct (key (fold_left (max_step key) l x) <? key z)%float
          eqn:Hrz; [| reflexivity].
        pose proof (float_ltb_trans Hlt Hrz). congruence.
    + apply IH. now right.
Qed.

(** An item that nothing after it exceeds stays the running maximum. *)
Lemma max_fold_keep (l : list X) (a : X) :
  (forall b, In b l -> (key a <? key b)%float = false) ->
  fold_left (max_step key) l a = a.
Proof.
  induction l as [| y l IH]; intros H; simpl; [reflexivity |].
  unfold max_step at 2. rewrite (H y) by now left.
  apply IH. intros b Hb. apply H. now right.
Qed.

(** [max] returns the first item that is not exceeded: the item [a] when
    every item before it is strictly smaller and no item after it is
    strictly greater. *)
Lemma py_max_by_first (pre post : list X) (a : X) :
  (forall b, In b pre -> (key b <? key a)%float = true) ->
  (forall b, In b post -> (key a <? key b)%float = false) ->
  py_max_by key (pre ++ a :: post) = Val a.
Proof.
  intros Hpre Hpost.
  assert (G : forall l x,
             (forall b, In b (x :: l) -> (key b <? key a)%float = true) ->
             fold_left (max_step key) (l ++ a :: post) x = a).
  { induction l as [| y l IH]; intros x H; simpl.
    - unfold max_step at 2. rewrite (H x) by now left.
      now apply max_fold_keep.
    - apply IH. intros b [<- | Hb].
      + unfold max_step. destruct (key x <? key y)%float; apply H;
          [right; now left | now left].
      + apply H. right. now right. }
  destruct pre as [| x pre]; simpl.
  - f_equal. now apply max_fold_keep.
  - f_equal. apply G. exact Hpre.
Qed.
End Max.

(** ** Dictionaries *)

Section DictFacts.
Variables K V : Type.
Variable K_eq_dec : forall x y : K, {x = y} + {x <> y}.

Lemma keys_dict_set (k : K) (v : V) (d : dict K V) :
  keys (dict_set K_eq_dec k v d) = add_key K_eq_dec (keys d) k.
Proof.
  induction d as [| [k' v'] d IH]; [reflexivity |].
  unfold add_key in *. cbn [dict_set keys map fst].
  destruct (K_eq_dec k k') as [E | N].
  - subst. destruct (in_dec K_eq_dec k' (k' :: map fst d)) as [_ | H];
      [reflexivity | exfalso; apply H; now left].
  - cbn [map fst]. fold (keys (dict_set K_eq_dec k v d)). rewrite IH.
    fold (keys d).
    destruct (in_dec K_eq_dec k (keys d)) as [H | H],
        (in_dec K_eq_dec k (k' :: keys d)) as [H' | H']; try reflexivity.
    + exfalso. apply H'. now right.
    + exfalso. destruct H' as [E | H']; [now subst | contradiction].
Qed.

Lemma dict_get_set (k k' : K) (v : V) (d : dict K V) :
  dict_get K_eq_dec k' (dict_set K_eq_dec k v d)
  = if K_eq_dec k' k then Some v else dict_get K_eq_dec k' d.
Proof.
  induction d as [| [k0 v0] d IH]; simpl.
  - destruct (K_eq_dec k' k); reflexivity.
  - destruct (K_eq_dec k k0) as [E | N]; simpl.
    + subst. destruct (K_eq_dec k' k0); reflexivity.
    + destruct (K_eq_dec k' k0) as [E | N'].
      * subst. destruct (K_eq_dec k0 k); [now subst | reflexivity].
      * exact IH.
Qed.

Lemma In_add_key (ks : list K) (k x : K) :
  In x (add_key K_eq_dec ks k) <-> In x ks \/ x = k.
Proof.
  unfold add_key. destruct (in_dec K_eq_dec k ks) as [H | H].
  - split; [tauto | intros [H' | ->]; assumption].
  - rewrite in_app_iff. simpl. split; intros [H' | H']; auto.
    destruct H' as [<- | []]. now right.
Qed.

Lemma NoDup_add_key (ks : list K) (k : K) :
  NoDup ks -> NoDup (add_key K_eq_dec ks k).
Proof.
  intros H. unfold add_key. destruct (in_dec K_eq_dec k ks) as [Hk | Hk];
    [exact H |].
  apply NoDup_app; [exact H | repeat constructor; intros [] | ].
  intros x Hx [<- | []]. contradiction.
Qed.

Lemma In_add_keys (l ks : list K) (x : K) :
  In x (fold_left (add_key K_eq_dec) l ks) <-> In x ks \/ In x l.
Proof.
  revert ks. induction l as [| k l IH]; intros ks; simpl; [tauto |].
  rewrite IH, In_add_key. intuition (subst; auto).
Qed.

Lemma NoDup_add_keys (l ks : list K) :
  NoDup ks -> NoDup (fold_left (add_key K_eq_dec) l ks).
Proof.
  revert ks. induction l as [| k l IH]; intros ks H; simpl; [exact H |].
  apply IH. now apply NoDup_add_key.
Qed.

Lemma NoDup_uniq (l : list K) : NoDup (uniq K_eq_dec l).
Proof. apply NoDup_add_keys. constructor. Qed.

Lemma In_uniq (l : list K) (x : K) : In x (uniq K_eq_dec l) <-> In x l.
Proof. unfold uniq. rewrite In_add_keys. simpl. tauto. Qed.

(** Assigning to keys that are all present adds no key. *)
Lemma add_keys_present (l ks : list K) :
  (forall x, In x l -> In x ks) -> fold_left (add_key K_eq_dec) l ks = ks.
Proof.
  induction l as [| k l IH]; intros H; simpl; [reflexivity |].
  unfold add_key at 2. destruct (in_dec K_eq_dec k ks) as [Hk | Hk].
  - apply IH. intros x Hx. apply H. now right.
  - exfalso. apply Hk, H. now left.
Qed.

Lemma add_keys_fresh (l ks : list K) :
  NoDup (ks ++ l) -> fold_left (add_key K_eq_dec) l ks = ks ++ l.
Proof.
  revert ks. induction l as [| k l IH]; intros ks H; simpl.
  - now rewrite app_nil_r.
  - unfold add_key at 2. destruct (in_dec K_eq_dec k ks) as [Hk | Hk].
    + exfalso. apply NoDup_remove_2 in H. apply H, in_or_app. now left.
    + rewrite IH; rewrite <- app_assoc; [reflexivity | exact H].
Qed.

(** Distinct keys are kept as they are. *)
Lemma uniq_NoDup (l : list K) : NoDup l -> uniq K_eq_dec l = l.
Proof. intros H. unfold uniq. now rewrite add_keys_fresh. Qed.

Lemma keys_assign_all (f : K -> V) (l : list K) (d : dict K V) :
  keys (assign_all K_eq_dec f l d) = fold_left (add_key K_eq_dec) l (keys d).
Proof.
  unfold assign_all. revert d. induction l as [| k l IH]; intros d; simpl;
    [reflexivity |].
  now rewrite IH, keys_dict_set.
Qed.

Lemma dict_get_assign_all (f : K -> V) (l : list K) (d : dict K V) (k : K) :
  dict_get K_eq_dec k (assign_all K_eq_dec f l d)
  = if in_dec K_eq_dec k l then Some (f k) else dict_get K_eq_dec k d.
Proof.
  unfold assign_all. revert d. induction l as [| x l IH]; intros d; simpl;
    [reflexivity |].
  rewrite IH, dict_get_set.
  destruct (in_dec K_eq_dec k l) as [Hl | Hl].
  - destruct (K_eq_dec x k); reflexivity.
  - destruct (K_eq_dec x k) as [E | N], (K_eq_dec k x) as [E' | N'];
      subst; try reflexivity; contradiction.
Qed.

(** A dictionary is determined by its keys and what [get] returns. *)
Lemma dict_is_graph (f : K -> V) (d : dict K V) :
  NoDup (keys d) ->
  (forall k, In k (keys d) -> dict_get K_eq_dec k d = Some (f k)) ->
  d = graph f (keys d).
Proof.
  induction d as [| [k v] d IH]; simpl; intros Hnd H; [reflexivity |].
  inversion Hnd as [| ? ? Hk Hnd']; subst.
  f_equal.
  - specialize (H k (or_introl eq_refl)).
    destruct (K_eq_dec k k); [| contradiction]. congruence.
  - apply IH; [exact Hnd' |].
    intros k' Hk'. specialize (H k' (or_intror Hk')).
    destruct (K_eq_dec k' k) as [E | _]; [| exact H].
    subst. contradiction.
Qed.

Lemma dict_fromkeys_graph (l : list K) (v : V) :
  dict_fromkeys K_eq_dec l v = graph (fun _ => v) (uniq K_eq_dec l).
Proof.
  change (dict_fromkeys K_eq_dec l v)
    with (assign_all K_eq_dec (fun _ => v) l []).
  assert (E : keys (assign_all K_eq_dec (fun _ : K => v) l [])
              = uniq K_eq_dec l) by apply keys_assign_all.
  rewrite <- E. apply dict_is_graph.
  - rewrite E. apply NoDup_uniq.
  - intros k Hk. rewrite E in Hk. apply (proj1 (In_uniq l k)) in Hk.
    rewrite dict_get_assign_all.
    destruct (in_dec K_eq_dec k l); [reflexivity | contradiction].
Qed.

Lemma dict_get_In (d : dict K V) (k : K) (v : V) :
  NoDup (keys d) -> In (k, v) d -> dict_get K_eq_dec k d = Some v.
Proof.
  induction d as [| [k' v'] d IH]; simpl; [tauto |].
  intros Hnd H. inversion Hnd as [| ? ? Hk Hnd']; subst.
  destruct H as [E | H].
  - injection E as -> ->.
    destruct (K_eq_dec k k); [reflexivity | contradiction].
  - destruct (K_eq_dec k k') as [-> | _]; [| now apply IH].
    exfalso. apply Hk. change k' with (fst (k', v)). now apply in_map.
Qed.

(** Assigning to the keys [l] appends keys of [l]. *)
Lemma add_keys_extends (l ks : list K) :
  exists new, fold_left (add_key K_eq_dec) l ks = ks ++ new /\ incl new l.
Proof.
  revert ks. induction l as [| k l IH]; intros ks; simpl.
  - exists []. split; [now rewrite app_nil_r | apply incl_refl].
  - assert (G : forall ks', exists new,
               fold_left (add_key K_eq_dec) l ks' = ks' ++ new /\
               incl new (k :: l)).
    { intros ks'. destruct (IH ks') as (new & E & Hincl).
      exists new. split; [exact E | now apply incl_tl]. }
    unfold add_key at 2. destruct (in_dec K_eq_dec k ks); [apply G |].
    destruct (IH (ks ++ [k])) as (new & E & Hincl).
    exists (k :: new). split.
    + rewrite E, <- app_assoc. reflexivity.
    + intros x [<- | Hx]; [now left | right; now apply Hincl].
Qed.

(** The first occurrence of a key splits the keys. *)
Lemma uniq_split (pre post : list K) (a : K) :
  ~ In a pre ->
  exists pre' post',
    uniq K_eq_dec (pre ++ a :: post) = pre' ++ a :: post' /\
    incl pre' pre /\ incl post' post.
Proof.
  intros Ha. unfold uniq. rewrite fold_left_app. cbn [fold_left].
  fold (uniq K_eq_dec pre). unfold add_key at 2.
  destruct (in_dec K_eq_dec a (uniq K_eq_dec pre)) as [H | _].
  - exfalso. apply Ha. now apply In_uniq.
  - destruct (add_keys_extends post (uniq K_eq_dec pre ++ [a]))
      as (new & E & Hincl).
    exists (uniq K_eq_dec pre), new. split; [| split].
    + rewrite E, <- app_assoc. reflexivity.
    + intros x Hx. now apply In_uniq.
    + exact Hincl.
Qed.

Lemma keys_graph (f : K -> V) (ks : list K) : keys (graph f ks) = ks.
Proof.
  unfold keys, graph. rewrite map_map. simpl. apply map_id.
Qed.

Lemma values_graph (f : K -> V) (ks : list K) :
  values (graph f ks) = map f ks.
Proof. unfold values, graph. now rewrite map_map. Qed.

Lemma dict_get_graph (f : K -> V) (ks : list K) (k : K) :
  In k ks -> dict_get K_eq_dec k (graph f ks) = Some (f k).
Proof.
  induction ks as [| x ks IH]; simpl; [tauto |].
  intros H. destruct (K_eq_dec k x) as [-> | N]; [reflexivity |].
  apply IH. destruct H as [E | H]; [now subst | exact H].
Qed.
End DictFacts.


(** ** The two-state chain *)

(** With the specification's synchronous sweep two sweeps of the chain give
    the value 1 to both states. *)
Lemma chain_synchronous :
  synchronous_iterate string_dec chain_probs chain_rewards (PyInt 1) 2
    ["s0"; "s1"] ["a0"] (dict_fromkeys string_dec ["s0"; "s1"] 0%float)
  = Val [("s0", 1%float); ("s1", 1%float)].
Proof. vm_compute. reflexivity. Qed.

(** After its first sweep the code has given [s1] the value 1: the backup of
    [s1] has read the value that the same sweep had just stored for [s0]. *)
Lemma chain_first_sweep :
  outcome (chain (PyInt 1) (PyInt 1)) []
  = Val (Result [("s0", "a0"); ("s1", "a0")]
           [("s0", 1%float); ("s1", 1%float)]).
Proof. vm_compute. reflexivity. Qed.

(** C1 (the code at the claim's input): on the two-state chain with
    discount 1 and horizon 2, [value_iteration] returns the value function
    {s0: 2.0, s1: 2.0}, not {s0: 1.0, s1: 1.0}: each sweep updates
    [val_dict] in place, so a state backed up later in a sweep reads values
    stored earlier in the same sweep. *)
Theorem chain_in_place_values :
  outcome (chain (PyInt 2) (PyInt 1)) []
  = Val (Result [("s0", "a0"); ("s1", "a0")]
           [("s0", 2%float); ("s1", 2%float)]).
Proof. vm_compute. reflexivity. Qed.

(** ** The self-loop *)

(** C9 (counterexample): after 100 sweeps the value of [s0] is farther than
    2^-10 (about 0.00098) from 50, so it is not equal to 50 within a
    floating tolerance. *)
Lemma self_loop_not_50 :
  exists v,
    outcome (self_loop (PyInt 100) (PyFloat nine_tenths)) []
    = Val (Result [("s0", "a0")] [("s0", v)]) /\
    (abs (v - 50) <=? 0x1p-10)%float = false.
Proof. exists self_loop_value. split; vm_compute; reflexivity. Qed.

(** C9 (amended): on the self-loop model with reward 5, discount 0.9 and
    horizon 100, [value_iteration] returns the policy {s0: a0} and the value
    0x1.8ffd47b5782d4p+5 (about 49.99867193) for [s0], which is within 2^-9
    (about 0.00195) of 50. *)
Theorem self_loop_result :
  outcome (self_loop (PyInt 100) (PyFloat nine_tenths)) []
  = Val (Result [("s0", "a0")] [("s0", self_loop_value)]) /\
  (abs (self_loop_value - 50) <? 0x1p-9)%float = true.
Proof. split; vm_compute; reflexivity. Qed.

(** ** Validation of the parameters *)

Section Validation.
Variables State Action : Type.
Variable State_eq_dec : forall x y : State, {x = y} + {x <> y}.
Variable Action_eq_dec : forall x y : Action, {x = y} + {x <> y}.
Variable probs : State -> Action -> list float.
Variable rewards : State -> Action -> float.

Lemma outside_unit_interval_check (discount : number) :
  outside_unit_interval discount ->
  num_gt1 discount || num_lt0 discount = true.
Proof.
  destruct discount as [z | f]; simpl; intros [H | H].
  - apply orb_true_iff; right. now apply Z.ltb_lt.
  - apply orb_true_iff; left. now apply Z.ltb_lt.
  - rewrite H. apply orb_true_r.
  - now rewrite H.
Qed.

(** C4: a discount outside [0, 1] makes [value_iteration] return its
    discount error at once; the call log is unchanged, so neither model
    function has been called. *)
Theorem invalid_discount_rejected
    (states : list State) (actions : list Action)
    (horizon discount : number) (t : log State Action) :
  outside_unit_interval discount ->
  value_iteration State_eq_dec Action_eq_dec states actions probs rewards
    horizon discount t
  = (Val (ErrorString discount_error), t).
Proof.
  intros H. unfold value_iteration, value_iteration_body.
  now rewrite (outside_unit_interval_check _ H).
Qed.

Lemma negative_check (horizon : number) :
  negative horizon -> num_lt0 horizon = true.
Proof.
  destruct horizon as [z | f]; simpl; intros H; [now apply Z.ltb_lt | exact H].
Qed.

(** Truncating a signed mantissa that [2^k] does not divide and scaling the
    result back does not give the mantissa. *)
Lemma quot_not_exact (s : bool) (m : positive) (k : Z) :
  (0 < k)%Z -> ~ (2 ^ k | Z.pos m)%Z ->
  (Z.quot (signed s m) (2 ^ k) * 2 ^ k =? signed s m)%Z = false.
Proof.
  intros Hk Hdiv. apply Z.eqb_neq. intros E. apply Hdiv.
  assert (Hs : (2 ^ k | signed s m)%Z)
    by (exists (Z.quot (signed s m) (2 ^ k)); lia).
  destruct s; simpl in Hs; [| exact Hs].
  apply Z.divide_opp_r in Hs. exact Hs.
Qed.

Lemma non_integral_check (horizon : number) :
  non_integral horizon ->
  exists i, py_int horizon = Val i /\ int_eqb i horizon = false.
Proof.
  destruct horizon as [z | f]; simpl; [tauto |].
  intros (s & m & e & E & He & Hdiv). rewrite E.
  destruct (Z.leb_spec 0 e) as [Hle | _]; [lia |].
  eexists; split; [reflexivity |].
  apply quot_not_exact; [lia | exact Hdiv].
Qed.

Lemma horizon_invalid_true (horizon : number) (t : log State Action) :
  negative horizon \/ non_integral horizon ->
  horizon_invalid (State := State) (Action := Action) horizon t = (Val true, t).
Proof.
  intros H. unfold horizon_invalid.
  destruct (num_lt0 horizon) eqn:Hneg; [reflexivity |].
  destruct H as [H | H].
  - apply negative_check in H. congruence.
  - destruct (non_integral_check _ H) as (i & Ei & Hi).
    unfold bind, lift, ret. now rewrite Ei, Hi.
Qed.

(** C5: a negative or non-integral horizon makes [value_iteration] return
    one of its two error strings (the discount error when the discount is
    out of range as well); no policy or value function is returned and no
    model function is called. *)
Theorem invalid_horizon_rejected
    (states : list State) (actions : list Action)
    (horizon discount : number) (t : log State Action) :
  negative horizon \/ non_integral horizon ->
  let call := value_iteration State_eq_dec Action_eq_dec states actions
                probs rewards horizon discount in
  invalid_parameter (outcome call t) /\
  ~ returned_result (outcome call t) /\
  calls call t = t.
Proof.
  intros H call0.
  assert (E : call0 t = (Val (ErrorString discount_error), t) \/
              call0 t = (Val (ErrorString horizon_error), t)).
  { unfold call0, value_iteration, value_iteration_body.
    destruct (num_gt1 discount || num_lt0 discount); [now left | right].
    unfold bind. now rewrite (horizon_invalid_true horizon t H). }
  unfold outcome, calls, invalid_parameter, returned_result.
  destruct E as [E | E]; rewrite E; simpl; (split; [tauto |]);
    (split; [| reflexivity]); intros (p & v & Hpv); discriminate.
Qed.
End Validation.

(** A horizon that is not a number fails in [int(horizon)], and a [float]
    horizon with an integral value passes the check and fails in
    [range(horizon)]. *)
Lemma nan_horizon_raises :
  chain (PyFloat nan) (PyInt 1) [] = (Exc ValueError, []).
Proof. vm_compute. reflexivity. Qed.

Lemma infinite_horizon_raises :
  chain (PyFloat infinity) (PyInt 1) [] = (Exc OverflowError, []).
Proof. vm_compute. reflexivity. Qed.

Lemma float_horizon_raises :
  chain (PyFloat 2) (PyInt 1) [] = (Exc TypeError, []).
Proof. vm_compute. reflexivity. Qed.

(** A discount that is not a number passes the first check. *)
Lemma nan_discount_accepted :
  returned_result (outcome (chain (PyInt 2) (PyFloat nan)) []).
Proof. eexists _, _. vm_compute. reflexivity. Qed.

(** C4 at the chain with discount 1.5. *)
Lemma invalid_discount_rejected_witness :
  outside_unit_interval (PyFloat 1.5) /\
  chain (PyInt 2) (PyFloat 1.5) []
  = (Val (ErrorString discount_error), []).
Proof.
  split.
  - right. reflexivity.
  - apply (invalid_discount_rejected string_dec string_dec chain_probs
             chain_rewards ["s0"; "s1"] ["a0"] (PyInt 2) (PyFloat 1.5) []).
    right. reflexivity.
Defined.

(** C5 at the chain with horizon 2.5, which is 5 * 2^-1 with the mantissa
    scaled to 53 bits. *)
Lemma invalid_horizon_rejected_witness :
  non_integral (PyFloat 2.5) /\
  invalid_parameter (outcome (chain (PyFloat 2.5) (PyInt 1)) []).
Proof.
  assert (H : non_integral (PyFloat 2.5)).
  { exists false, 5629499534213120%positive, (-51)%Z.
    split; [reflexivity |]. split; [lia |].
    intros [c Hc].
    change (2 ^ (- (-51)))%Z with 2251799813685248%Z in Hc. lia. }
  split; [exact H |].
  apply (invalid_horizon_rejected string_dec string_dec chain_probs
           chain_rewards ["s0"; "s1"] ["a0"] (PyFloat 2.5) (PyInt 1) []).
  right. exact H.
Defined.

(** ** The loops of the engine *)

Lemma numpy_multiply_compatible (p v : list float) :
  compatible p (length v) = true -> exists pv, numpy_multiply p v = Val pv.
Proof.
  unfold compatible, numpy_multiply. intros H.
  destruct (length p =? length v)%nat; [eexists; reflexivity |].
  destruct p as [| x [| x' p]], v as [| y [| y' v]]; simpl in *;
    try discriminate; eexists; reflexivity.
Qed.

Lemma numpy_multiply_incompatible (p v : list float) :
  compatible p (length v) = false -> numpy_multiply p v = Exc ValueError.
Proof.
  unfold compatible, numpy_multiply. intros H.
  destruct (length p =? length v)%nat; [discriminate |].
  destruct p as [| x [| x' p]], v as [| y [| y' v]]; simpl in *;
    try discriminate; reflexivity.
Qed.

Lemma forallb_eq_ext (X : Type) (f g : X -> bool) (l : list X) :
  (forall x, f x = g x) -> forallb f l = forallb g l.
Proof.
  intros H. induction l as [| x l IH]; simpl; [reflexivity |].
  now rewrite H, IH.
Qed.

Lemma py_max_by_exn (X : Type) (key : X -> float) (l : list X) (e : exn) :
  py_max_by key l = Exc e -> e = ValueError.
Proof. destruct l; simpl; congruence. Qed.

Lemma py_max_by_In (X : Type) (key : X -> float) (l : list X) (x : X) :
  py_max_by key l = Val x -> In x l.
Proof.
  destruct l as [| y l]; simpl; [discriminate |].
  intros E. injection E as <-. apply max_fold_In.
Qed.

Lemma py_max_by_maximal (X : Type) (key : X -> float) (l : list X) (x y : X) :
  py_max_by key l = Val x -> In y l -> (key x <? key y)%float = false.
Proof.
  destruct l as [| z l]; simpl; [discriminate |].
  intros E. injection E as <-. apply max_fold_maximal.
Qed.

Lemma py_max_by_nonempty (X : Type) (key : X -> float) (l : list X) :
  l <> [] -> exists x, py_max_by key l = Val x.
Proof. destruct l; [congruence | eexists; reflexivity]. Qed.

Section EngineFacts.
Variables State Action : Type.
Variable State_eq_dec : forall x y : State, {x = y} + {x <> y}.
Variable Action_eq_dec : forall x y : Action, {x = y} + {x <> y}.
Variable probs : State -> Action -> list float.
Variable rewards : State -> Action -> float.
Variable discount : number.

Abbreviation q' := (q probs rewards discount).
Abbreviation q_ok' := (q_ok probs).
Abbreviation q_at' := (q_at probs rewards discount).
Abbreviation q_table' := (q_table Action_eq_dec probs rewards discount).
Abbreviation greedy' := (greedy Action_eq_dec probs rewards discount).
Abbreviation all_ok' := (all_ok probs).
Abbreviation actions_table' := (actions_table Action_eq_dec).
Abbreviation q_value' := (q_value probs rewards discount).
Abbreviation eval_actions' :=
  (eval_actions Action_eq_dec probs rewards discount).
Abbreviation backup_sweep' :=
  (backup_sweep State_eq_dec Action_eq_dec probs rewards discount).
Abbreviation iterate' :=
  (iterate State_eq_dec Action_eq_dec probs rewards discount).
Abbreviation extract_policy' :=
  (extract_policy State_eq_dec Action_eq_dec probs rewards discount).
Abbreviation run' := (run State_eq_dec Action_eq_dec probs rewards discount).

Lemma length_values (X Y : Type) (d : dict X Y) : length (values d) = length d.
Proof. apply length_map. Qed.

Lemma length_keys (X Y : Type) (d : dict X Y) : length (keys d) = length d.
Proof. apply length_map. Qed.

Lemma q_Val (val_dict : dict State float) (s : State) (a : Action) :
  q_ok' val_dict s a = true -> q' val_dict s a = Val (q_at' val_dict s a).
Proof.
  unfold q_ok, q_at, q. intros H.
  rewrite <- length_values in H.
  destruct (numpy_multiply_compatible _ _ H) as [pv ->]. reflexivity.
Qed.

Lemma q_Exc (val_dict : dict State float) (s : State) (a : Action) :
  q_ok' val_dict s a = false -> q' val_dict s a = Exc ValueError.
Proof.
  unfold q_ok, q. intros H.
  rewrite <- length_values in H.
  now rewrite (numpy_multiply_incompatible _ _ H).
Qed.

(** [q_ok'] only looks at the number of values. *)
Lemma q_ok_length (v v' : dict State float) (s : State) (a : Action) :
  length v = length v' -> q_ok' v s a = q_ok' v' s a.
Proof. unfold q_ok. now intros ->. Qed.

Lemma all_ok_length (actions : list Action) (v v' : dict State float)
    (states : list State) :
  length v = length v' -> all_ok' actions v states = all_ok' actions v' states.
Proof.
  intros H. unfold all_ok. apply forallb_eq_ext. intros s.
  apply forallb_eq_ext. intros a. now apply q_ok_length.
Qed.

(** [q_value'] makes its two calls, [rewards] first, and then computes [q']. *)
Lemma q_value_eq (val_dict : dict State float) (s : State) (a : Action)
    (t : log State Action) :
  q_value' val_dict s a t
  = (q' val_dict s a, CallProbs s a :: CallRewards s a :: t).
Proof.
  unfold q_value, q, bind, call_rewards, call_probs,
    lift, ret.
  destruct (numpy_multiply (probs s a) (values val_dict)); reflexivity.
Qed.

Lemma eval_actions_spec (val_dict : dict State float) (s : State)
    (actions : list Action) :
  forall (val_action : dict Action float) (t : log State Action),
  exists t',
    eval_actions' val_dict s actions val_action t
    = (if forallb (q_ok' val_dict s) actions
       then Val (assign_all Action_eq_dec (q_at' val_dict s) actions
                   val_action)
       else Exc ValueError, t').
Proof.
  induction actions as [| a rest IH]; intros va t; simpl.
  - eexists; reflexivity.
  - unfold bind. rewrite q_value_eq.
    destruct (q_ok' val_dict s a) eqn:Hok; simpl.
    + rewrite (q_Val _ _ _ Hok). apply IH.
    + rewrite (q_Exc _ _ _ Hok). eexists; reflexivity.
Qed.

Lemma table_after (f : Action -> float) (actions : list Action)
    (val_action : dict Action float) :
  actions_table' actions val_action ->
  assign_all Action_eq_dec f actions val_action
  = graph f (uniq Action_eq_dec actions).
Proof.
  intros H.
  assert (E : keys (assign_all Action_eq_dec f actions val_action)
              = uniq Action_eq_dec actions).
  { rewrite keys_assign_all. destruct H as [-> | ->]; [reflexivity |].
    apply add_keys_present. intros x Hx. now apply In_uniq. }
  rewrite <- E. apply (dict_is_graph Action_eq_dec).
  - rewrite E. apply NoDup_uniq.
  - intros k Hk. rewrite E in Hk. apply (proj1 (In_uniq _ _ _)) in Hk.
    rewrite dict_get_assign_all.
    destruct (in_dec Action_eq_dec k actions); [reflexivity | contradiction].
Qed.

Lemma actions_table_q_table (actions : list Action)
    (val_dict : dict State float) (s : State) :
  actions_table' actions (q_table' actions val_dict s).
Proof. right. apply keys_graph. Qed.

(** The loop over the actions at one state, from a table of the engine. *)
Lemma eval_actions_table (val_dict : dict State float) (s : State)
    (actions : list Action) (val_action : dict Action float)
    (t : log State Action) :
  actions_table' actions val_action ->
  exists t',
    eval_actions' val_dict s actions val_action t
    = (if forallb (q_ok' val_dict s) actions
       then Val (q_table' actions val_dict s)
       else Exc ValueError, t').
Proof.
  intros H. destruct (eval_actions_spec val_dict s actions val_action t)
    as [t' E].
  exists t'. rewrite E. now rewrite (table_after _ H).
Qed.

Lemma q_table_nonempty (actions : list Action) (val_dict : dict State float)
    (s : State) :
  actions <> [] -> q_table' actions val_dict s <> [].
Proof.
  intros H E. destruct actions as [| a rest]; [congruence |].
  assert (Ha : In a (uniq Action_eq_dec (a :: rest)))
    by (apply In_uniq; now left).
  unfold q_table, graph in E. apply map_eq_nil in E.
  rewrite E in Ha. exact Ha.
Qed.
Lemma keys_dict_set_present (X Y : Type)
    (X_eq_dec : forall x y : X, {x = y} + {x <> y})
    (k : X) (v : Y) (d : dict X Y) :
  In k (keys d) -> keys (dict_set X_eq_dec k v d) = keys d.
Proof.
  intros H. rewrite keys_dict_set. unfold add_key.
  destruct (in_dec X_eq_dec k (keys d)); [reflexivity | contradiction].
Qed.

Lemma keys_nil (X Y : Type) (d : dict X Y) : keys d = [] -> d = [].
Proof. apply map_eq_nil. Qed.

(** *** Policy extraction *)

Lemma extract_policy_no_actions (s : State) (rest : list State)
    (val_dict : dict State float) (policy_dict : dict State Action)
    (t : log State Action) :
  extract_policy' [] (s :: rest) val_dict [] policy_dict t
  = (Exc ValueError, t).
Proof. reflexivity. Qed.

Lemma extract_policy_spec (a0 : Action) (actions : list Action)
    (val_dict : dict State float) (states : list State) :
  actions <> [] ->
  forall (val_action : dict Action float) (policy_dict : dict State Action)
         (t : log State Action),
  actions_table' actions val_action ->
  exists t',
    extract_policy' actions states val_dict val_action policy_dict t
    = (if all_ok' actions val_dict states
       then Val (assign_all State_eq_dec (greedy' actions val_dict a0)
                   states policy_dict)
       else Exc ValueError, t').
Proof.
  intros Hne.
  induction states as [| s rest IH]; intros va pol t Hva.
  - eexists; reflexivity.
  - cbn [extract_policy]. unfold bind.
    destruct (eval_actions_table val_dict s t Hva) as [t1 E1]. rewrite E1.
    unfold all_ok. cbn [forallb].
    destruct (forallb (q_ok' val_dict s) actions) eqn:Hok; cbn [andb].
    + destruct (py_max_by_nonempty snd (q_table_nonempty val_dict s Hne))
        as [best Eb].
      unfold lift. rewrite Eb.
      destruct (IH (q_table' actions val_dict s)
                  (dict_set State_eq_dec s (fst best) pol) t1
                  (actions_table_q_table actions val_dict s)) as [t2 E2].
      exists t2. rewrite E2. unfold all_ok.
      destruct (forallb (fun s0 => forallb (q_ok' val_dict s0) actions) rest);
        [| reflexivity].
      assert (Eg : greedy' actions val_dict a0 s = fst best)
        by (unfold greedy; now rewrite Eb).
      unfold assign_all. cbn [fold_left]. now rewrite Eg.
    + eexists; reflexivity.
Qed.

(** *** Sweeps *)

Lemma backup_sweep_no_actions (s : State) (rest : list State)
    (val_dict : dict State float) (t : log State Action) :
  backup_sweep' [] (s :: rest) val_dict [] t = (Exc ValueError, t).
Proof. reflexivity. Qed.

(** A sweep keeps the keys of [val_dict] and leaves a table of the
    engine. *)
Lemma backup_sweep_inv (actions : list Action) (states : list State) :
  forall (val_dict : dict State float) (val_action : dict Action float)
         (t : log State Action) val_dict' val_action' t',
  (forall s, In s states -> In s (keys val_dict)) ->
  actions_table' actions val_action ->
  backup_sweep' actions states val_dict val_action t
  = (Val (val_dict', val_action'), t') ->
  keys val_dict' = keys val_dict /\ actions_table' actions val_action'.
Proof.
  induction states as [| s rest IH]; intros val va t val1 va1 t1 Hin Hva E.
  - cbn in E. unfold ret in E. injection E as <- <- <-. now split.
  - cbn [backup_sweep] in E. unfold bind in E.
    destruct (eval_actions_table val s t Hva) as [t2 E2]. rewrite E2 in E.
    destruct (forallb (q_ok' val s) actions); [| discriminate].
    unfold lift in E.
    destruct (py_max (values (q_table' actions val s))) as [v | e];
      [| discriminate].
    assert (Hk : keys (dict_set State_eq_dec s v val) = keys val)
      by (apply keys_dict_set_present, Hin; now left).
    apply IH in E.
    + destruct E as [Ek Ht]. split; [congruence | exact Ht].
    + intros s' Hs'. rewrite Hk. apply Hin. now right.
    + apply actions_table_q_table.
Qed.

Lemma backup_sweep_exn (actions : list Action) (states : list State) :
  forall (val_dict : dict State float) (val_action : dict Action float)
         (t : log State Action) (e : exn) t',
  backup_sweep' actions states val_dict val_action t = (Exc e, t') ->
  e = ValueError.
Proof.
  induction states as [| s rest IH]; intros val va t e t1 E.
  - discriminate.
  - cbn [backup_sweep] in E. unfold bind in E.
    destruct (eval_actions_spec val s actions va t) as [t2 E2].
    rewrite E2 in E.
    destruct (forallb (q_ok' val s) actions); [| congruence].
    unfold lift in E.
    destruct (py_max _) as [v | e'] eqn:Em.
    + eapply IH, E.
    + apply py_max_by_exn in Em. congruence.
Qed.

Lemma backup_sweep_total (actions : list Action) (states : list State) :
  actions <> [] ->
  forall (val_dict : dict State float) (val_action : dict Action float)
         (t : log State Action),
  (forall s, In s states -> In s (keys val_dict)) ->
  actions_table' actions val_action ->
  all_ok' actions val_dict states = true ->
  exists st t', backup_sweep' actions states val_dict val_action t
                = (Val st, t').
Proof.
  intros Hne.
  induction states as [| s rest IH]; intros val va t Hin Hva Hok.
  - eexists _, _; reflexivity.
  - cbn [backup_sweep]. unfold bind.
    destruct (eval_actions_table val s t Hva) as [t2 E2]. rewrite E2.
    unfold all_ok in Hok. cbn [forallb] in Hok.
    apply andb_true_iff in Hok. destruct Hok as [Hs Hrest]. rewrite Hs.
    unfold lift, py_max.
    assert (Hv : values (q_table' actions val s) <> []).
    { intros E. apply map_eq_nil in E. revert E.
      now apply q_table_nonempty. }
    destruct (py_max_by_nonempty (fun x => x) Hv) as [v Ev]. rewrite Ev.
    assert (Hk : keys (dict_set State_eq_dec s v val) = keys val)
      by (apply keys_dict_set_present, Hin; now left).
    apply IH.
    + intros s' Hs'. rewrite Hk. apply Hin. now right.
    + apply actions_table_q_table.
    + rewrite <- Hrest. apply all_ok_length.
      rewrite <- !length_keys. now rewrite Hk.
Qed.

Lemma iterate_no_states (n : nat) (actions : list Action)
    (val_dict : dict State float) (val_action : dict Action float)
    (t : log State Action) :
  iterate' n [] actions val_dict val_action t
  = (Val (val_dict, val_action), t).
Proof.
  induction n as [| n IH]; [reflexivity |].
  cbn [iterate]. unfold bind. cbn. exact IH.
Qed.

Lemma iterate_no_actions (n : nat) (s : State) (rest : list State)
    (val_dict : dict State float) (t : log State Action) :
  iterate' (S n) (s :: rest) [] val_dict [] t = (Exc ValueError, t).
Proof. reflexivity. Qed.

Lemma iterate_inv (n : nat) (states : list State) (actions : list Action) :
  forall (val_dict : dict State float) (val_action : dict Action float)
         (t : log State Action) val_dict' val_action' t',
  (forall s, In s states -> In s (keys val_dict)) ->
  actions_table' actions val_action ->
  iterate' n states actions val_dict val_action t
  = (Val (val_dict', val_action'), t') ->
  keys val_dict' = keys val_dict /\ actions_table' actions val_action'.
Proof.
  induction n as [| n IH]; intros val va t val1 va1 t1 Hin Hva E.
  - cbn in E. unfold ret in E. injection E as <- <- <-. now split.
  - cbn [iterate] in E. unfold bind in E.
    destruct (backup_sweep' actions states val va t) as [[[val2 va2] | e] t2]
      eqn:Es; [| discriminate].
    destruct (@backup_sweep_inv actions states val va t val2 va2 t2 Hin Hva Es)
      as [Ek Ht].
    cbn [fst snd] in E. apply IH in E.
    + destruct E as [Ek' Ht']. split; [congruence | exact Ht'].
    + intros s Hs. rewrite Ek. now apply Hin.
    + exact Ht.
Qed.

Lemma iterate_exn (n : nat) (states : list State) (actions : list Action) :
  forall (val_dict : dict State float) (val_action : dict Action float)
         (t : log State Action) (e : exn) t',
  iterate' n states actions val_dict val_action t = (Exc e, t') ->
  e = ValueError.
Proof.
  induction n as [| n IH]; intros val va t e t1 E.
  - discriminate.
  - cbn [iterate] in E. unfold bind in E.
    destruct (backup_sweep' actions states val va t) as [[st | e'] t2] eqn:Es.
    + eapply IH, E.
    + apply backup_sweep_exn in Es. congruence.
Qed.

Lemma iterate_total (n : nat) (states : list State) (actions : list Action) :
  actions <> [] ->
  forall (val_dict : dict State float) (val_action : dict Action float)
         (t : log State Action),
  (forall s, In s states -> In s (keys val_dict)) ->
  actions_table' actions val_action ->
  all_ok' actions val_dict states = true ->
  exists st t', iterate' n states actions val_dict val_action t
                = (Val st, t').
Proof.
  intros Hne.
  induction n as [| n IH]; intros val va t Hin Hva Hok.
  - eexists _, _; reflexivity.
  - cbn [iterate]. unfold bind.
    destruct (@backup_sweep_total actions states Hne val va t Hin Hva Hok)
      as ([val2 va2] & t2 & Es).
    rewrite Es. cbn [fst snd].
    destruct (@backup_sweep_inv actions states val va t val2 va2 t2 Hin Hva Es)
      as [Ek Ht].
    apply IH.
    + intros s Hs. rewrite Ek. now apply Hin.
    + exact Ht.
    + rewrite <- Hok. apply all_ok_length.
      rewrite <- !length_keys. now rewrite Ek.
Qed.

(** *** The whole call *)

Lemma horizon_invalid_log (horizon : number) (t : log State Action) :
  snd (horizon_invalid horizon t) = t.
Proof.
  unfold horizon_invalid, bind, lift, ret.
  destruct (num_lt0 horizon); [reflexivity |].
  destruct (py_int horizon); reflexivity.
Qed.

(** A call that returns a result has passed the checks and run the loops. *)
Lemma value_iteration_result_inv (states : list State)
    (actions : list Action) (horizon : number) (t t' : log State Action)
    (policy_dict : dict State Action) (val_dict : dict State float) :
  value_iteration State_eq_dec Action_eq_dec states actions probs rewards
    horizon discount t = (Val (Result policy_dict val_dict), t') ->
  run' states actions horizon t = (Val (Result policy_dict val_dict), t').
Proof.
  unfold value_iteration, value_iteration_body.
  destruct (num_gt1 discount || num_lt0 discount); [discriminate |].
  unfold bind. pose proof (horizon_invalid_log horizon t) as Hl.
  destruct (horizon_invalid horizon t) as [[b | e] t1]; [| discriminate].
  simpl in Hl. subst t1. destruct b; [discriminate | auto].
Qed.

Lemma value_iteration_valid (states : list State) (actions : list Action)
    (horizon : number) (t : log State Action) :
  in_unit_interval discount -> valid_horizon horizon ->
  value_iteration State_eq_dec Action_eq_dec states actions probs rewards
    horizon discount t = run' states actions horizon t.
Proof.
  intros Hd (n & -> & Hn). unfold value_iteration, value_iteration_body.
  rewrite (in_unit_interval_check _ Hd).
  unfold horizon_invalid. cbn [num_lt0].
  destruct (Z.ltb_spec n 0) as [Hlt | _]; [lia |].
  cbv [bind lift ret py_int int_eqb]. now rewrite Z.eqb_refl.
Qed.

Lemma In_keys_dict_fromkeys (states : list State) (s : State) :
  In s states -> In s (keys (dict_fromkeys State_eq_dec states 0%float)).
Proof.
  intros H. rewrite dict_fromkeys_graph, keys_graph. now apply In_uniq.
Qed.

(** What a successful run has established. *)
Lemma run_inv (states : list State) (actions : list Action)
    (horizon : number) (t t' : log State Action)
    (policy_dict : dict State Action) (val_dict : dict State float) :
  run' states actions horizon t = (Val (Result policy_dict val_dict), t') ->
  keys val_dict = uniq State_eq_dec states /\
  keys policy_dict = uniq State_eq_dec states /\
  forall s, In s states ->
    forallb (q_ok' val_dict s) actions = true /\
    exists best,
      py_max_by snd (q_table' actions val_dict s) = Val best /\
      dict_get State_eq_dec s policy_dict = Some (fst best).
Proof.
  unfold run, bind, lift.
  destruct (py_range horizon) as [n | e]; [| discriminate].
  destruct (iterate' n states actions
              (dict_fromkeys State_eq_dec states 0%float) [] t)
    as [[[val1 va1] | e] t1] eqn:Ei; [| discriminate].
  cbn [fst snd].
  destruct (extract_policy' actions states val1 va1 [] t1)
    as [[pol1 | e] t2] eqn:Ep; [| discriminate].
  unfold ret. intros E. injection E as <- <- <-.
  destruct (@iterate_inv n states actions _ [] t val1 va1 t1
              (In_keys_dict_fromkeys states) (or_introl eq_refl) Ei)
    as [Ek Hva].
  rewrite dict_fromkeys_graph, keys_graph in Ek.
  split; [exact Ek |].
  destruct actions as [| a0 acts].
  - assert (va1 = []) by (destruct Hva as [H | H]; now apply keys_nil).
    subst va1. destruct states as [| s0 rest].
    + cbn in Ep. unfold ret in Ep. injection Ep as <-.
      split; [reflexivity | intros s []].
    + rewrite extract_policy_no_actions in Ep. discriminate.
  - assert (Hne : a0 :: acts <> []) by congruence.
    destruct (extract_policy_spec a0 val1 states Hne [] t1 Hva) as [t3 E3].
    rewrite E3 in Ep.
    destruct (all_ok' (a0 :: acts) val1 states) eqn:Hok; [| discriminate].
    injection Ep as <-. split.
    + rewrite keys_assign_all. reflexivity.
    + intros s Hs. split.
      * unfold all_ok in Hok. rewrite forallb_forall in Hok. now apply Hok.
      * destruct (py_max_by_nonempty snd (q_table_nonempty val1 s Hne))
          as [best Eb].
        exists best. split; [exact Eb |].
        rewrite dict_get_assign_all.
        destruct (in_dec State_eq_dec s states); [| contradiction].
        unfold greedy. now rewrite Eb.
Qed.

(** On valid inputs the run returns a result. *)
Lemma run_total (states : list State) (actions : list Action) (n : Z)
    (t : log State Action) :
  actions <> [] ->
  (forall s a, In s states -> In a actions ->
     compatible (probs s a) (length (uniq State_eq_dec states)) = true) ->
  exists policy_dict val_dict t',
    run' states actions (PyInt n) t
    = (Val (Result policy_dict val_dict), t').
Proof.
  intros Hne Hc. unfold run, bind, lift. cbn [py_range].
  set (val0 := dict_fromkeys State_eq_dec states 0%float).
  assert (Hlen : forall v : dict State float,
             keys v = uniq State_eq_dec states ->
             all_ok' actions v states = true).
  { intros v Hv. unfold all_ok. apply forallb_forall. intros s Hs.
    apply forallb_forall. intros a Ha. unfold q_ok.
    rewrite <- length_keys, Hv. now apply Hc. }
  assert (Hk0 : keys val0 = uniq State_eq_dec states)
    by (unfold val0; now rewrite dict_fromkeys_graph, keys_graph).
  destruct (@iterate_total (Z.to_nat n) states actions Hne val0 [] t
              (In_keys_dict_fromkeys states) (or_introl eq_refl)
              (Hlen _ Hk0)) as ([val1 va1] & t1 & Ei).
  rewrite Ei. cbn [fst snd].
  destruct (@iterate_inv _ states actions _ [] t val1 va1 t1
              (In_keys_dict_fromkeys states) (or_introl eq_refl) Ei)
    as [Ek Hva].
  fold val0 in Ek. rewrite Hk0 in Ek.
  destruct actions as [| a0 acts]; [congruence |].
  destruct (extract_policy_spec a0 val1 states Hne [] t1 Hva) as [t3 E3].
  rewrite E3, (Hlen _ Ek). unfold ret. eexists _, _, _. reflexivity.
Qed.

(** With horizon 0 the value function is the initial one. *)
Lemma run_zero (states : list State) (actions : list Action)
    (t t' : log State Action)
    (policy_dict : dict State Action) (val_dict : dict State float) :
  run' states actions (PyInt 0) t = (Val (Result policy_dict val_dict), t') ->
  val_dict = dict_fromkeys State_eq_dec states 0%float.
Proof.
  unfold run, bind, lift. cbn [py_range Z.to_nat iterate]. unfold ret at 1.
  cbn [fst snd].
  destruct (extract_policy' actions states _ [] [] t) as [[pol | e] t1];
    [| discriminate].
  unfold ret. intros E. now injection E as _ <- _.
Qed.

Lemma extract_policy_exn (actions : list Action) (states : list State) :
  forall (val_dict : dict State float) (val_action : dict Action float)
         (policy_dict : dict State Action) (t : log State Action)
         (e : exn) t',
  extract_policy' actions states val_dict val_action policy_dict t
  = (Exc e, t') ->
  e = ValueError.
Proof.
  induction states as [| s rest IH]; intros val va pol t e t1 E.
  - discriminate.
  - cbn [extract_policy] in E. unfold bind in E.
    destruct (eval_actions_spec val s actions va t) as [t2 E2].
    rewrite E2 in E.
    destruct (forallb (q_ok' val s) actions); [| congruence].
    unfold lift in E.
    destruct (py_max_by snd _) as [best | e'] eqn:Em.
    + eapply IH, E.
    + apply py_max_by_exn in Em. congruence.
Qed.

(** The loops return a result or raise [ValueError]. *)
Lemma run_outcome (states : list State) (actions : list Action) (n : Z)
    (t : log State Action) :
  returned_result (fst (run' states actions (PyInt n) t)) \/
  fst (run' states actions (PyInt n) t) = Exc ValueError.
Proof.
  unfold run, bind, lift. cbn [py_range].
  destruct (iterate' _ states actions _ [] t) as [[st | e] t1] eqn:Ei.
  - destruct (extract_policy' actions states (fst st) (snd st) [] t1)
      as [[pol | e] t2] eqn:Ep.
    + left. eexists _, _. reflexivity.
    + right. apply extract_policy_exn in Ep. now subst.
  - right. apply iterate_exn in Ei. now subst.
Qed.

Lemma run_no_states (actions : list Action) (horizon : number)
    (t : log State Action) :
  run' [] actions horizon t
  = (match py_range horizon with
     | Val _ => Val (Result [] [])
     | Exc e => Exc e
     end, t).
Proof.
  unfold run, bind, lift. destruct (py_range horizon) as [n | e];
    [| reflexivity].
  now rewrite iterate_no_states.
Qed.

Lemma run_no_actions (s : State) (rest : list State) (horizon : number)
    (t : log State Action) :
  run' (s :: rest) [] horizon t
  = (match py_range horizon with
     | Val _ => Exc ValueError
     | Exc e => Exc e
     end, t).
Proof.
  unfold run, bind, lift. destruct (py_range horizon) as [n | e];
    [| reflexivity].
  destruct n as [| n]; reflexivity.
Qed.

(** The ways a call can end: one of the two error strings, an exception of
    [int(horizon)], or the loops. *)
Lemma value_iteration_cases (states : list State) (actions : list Action)
    (horizon : number) (t : log State Action) :
  let call := value_iteration State_eq_dec Action_eq_dec states actions
                probs rewards horizon discount in
  call t = (Val (ErrorString discount_error), t) \/
  call t = (Val (ErrorString horizon_error), t) \/
  (exists e, call t = (Exc e, t)) \/
  call t = run' states actions horizon t.
Proof.
  unfold value_iteration, value_iteration_body. cbv zeta.
  destruct (num_gt1 discount || num_lt0 discount); [now left | right].
  unfold bind. pose proof (horizon_invalid_log horizon t) as Hl.
  destruct (horizon_invalid horizon t) as [[b | e] t1]; simpl in Hl; subst t1.
  - destruct b; [now left | right; right; reflexivity].
  - right. left. now exists e.
Qed.

(** *** The calls do not depend on the log *)

Lemma oblivious_ret (X : Type) (x : X) :
  oblivious (ret (State := State) (Action := Action) x).
Proof. exists (Val x), []. reflexivity. Qed.

Lemma oblivious_lift (X : Type) (r : res X) :
  oblivious (lift (State := State) (Action := Action) r).
Proof. exists r, []. reflexivity. Qed.

Lemma oblivious_bind (X Y : Type) (m : M State Action X)
    (k : X -> M State Action Y) :
  oblivious m -> (forall x, oblivious (k x)) -> oblivious (bind m k).
Proof.
  intros (r & l & Hm) Hk. destruct r as [x | e].
  - destruct (Hk x) as (r' & l' & Hk'). exists r', (l' ++ l).
    intros t. unfold bind. now rewrite Hm, Hk', app_assoc.
  - exists (Exc e), l. intros t. unfold bind. now rewrite Hm.
Qed.

Lemma oblivious_q_value (val_dict : dict State float) (s : State)
    (a : Action) :
  oblivious (q_value' val_dict s a).
Proof.
  exists (q' val_dict s a), [CallProbs s a; CallRewards s a].
  intros t. apply q_value_eq.
Qed.

Lemma oblivious_eval_actions (val_dict : dict State float) (s : State)
    (actions : list Action) :
  forall val_action, oblivious (eval_actions' val_dict s actions val_action).
Proof.
  induction actions as [| a rest IH]; intros va; cbn [eval_actions].
  - apply oblivious_ret.
  - apply oblivious_bind; [apply oblivious_q_value | intros x; apply IH].
Qed.

Lemma oblivious_backup_sweep (actions : list Action) (states : list State) :
  forall val_dict val_action,
  oblivious (backup_sweep' actions states val_dict val_action).
Proof.
  induction states as [| s rest IH]; intros val va; cbn [backup_sweep].
  - apply oblivious_ret.
  - apply oblivious_bind; [apply oblivious_eval_actions | intros va'].
    apply oblivious_bind; [apply oblivious_lift | intros v; apply IH].
Qed.

Lemma oblivious_iterate (n : nat) (states : list State)
    (actions : list Action) :
  forall val_dict val_action,
  oblivious (iterate' n states actions val_dict val_action).
Proof.
  induction n as [| n IH]; intros val va; cbn [iterate].
  - apply oblivious_ret.
  - apply oblivious_bind; [apply oblivious_backup_sweep | intros st; apply IH].
Qed.

Lemma oblivious_extract_policy (actions : list Action)
    (states : list State) :
  forall val_dict val_action policy_dict,
  oblivious (extract_policy' actions states val_dict val_action policy_dict).
Proof.
  induction states as [| s rest IH]; intros val va pol; cbn [extract_policy].
  - apply oblivious_ret.
  - apply oblivious_bind; [apply oblivious_eval_actions | intros va'].
    apply oblivious_bind; [apply oblivious_lift | intros best; apply IH].
Qed.

Lemma oblivious_run (states : list State) (actions : list Action)
    (horizon : number) :
  oblivious (run' states actions horizon).
Proof.
  unfold run.
  apply oblivious_bind; [apply oblivious_lift | intros n].
  apply oblivious_bind; [apply oblivious_iterate | intros st].
  apply oblivious_bind; [apply oblivious_extract_policy | intros pol].
  apply oblivious_ret.
Qed.

Lemma oblivious_value_iteration (states : list State)
    (actions : list Action) (horizon : number) :
  oblivious (value_iteration State_eq_dec Action_eq_dec states actions
               probs rewards horizon discount).
Proof.
  unfold value_iteration, value_iteration_body.
  destruct (num_gt1 discount || num_lt0 discount); [apply oblivious_ret |].
  apply oblivious_bind.
  - unfold horizon_invalid. destruct (num_lt0 horizon);
      [apply oblivious_ret |].
    apply oblivious_bind; [apply oblivious_lift | intros i].
    apply oblivious_ret.
  - intros [|]; [apply oblivious_ret | apply oblivious_run].
Qed.

End EngineFacts.

(** ** The result of a successful call *)

Section Results.
Variables State Action : Type.
Variable State_eq_dec : forall x y : State, {x = y} + {x <> y}.
Variable Action_eq_dec : forall x y : Action, {x = y} + {x <> y}.
Variable probs : State -> Action -> list float.
Variable rewards : State -> Action -> float.

Abbreviation value_iteration' :=
  (value_iteration State_eq_dec Action_eq_dec).

Lemma outcome_eq (X : Type) (m : M State Action X) (t : log State Action)
    (r : res X) :
  outcome m t = r -> m t = (r, calls m t).
Proof. unfold outcome, calls. intros <-. apply surjective_pairing. Qed.

Lemma q_at_Val (discount : number) (val_dict : dict State float) (s : State)
    (a : Action) (x : float) :
  q probs rewards discount val_dict s a = Val x ->
  q_at probs rewards discount val_dict s a = x.
Proof. unfold q_at. now intros ->. Qed.

Lemma In_q_table (discount : number) (actions : list Action)
    (val_dict : dict State float) (s : State) (b : Action * float) :
  In b (q_table Action_eq_dec probs rewards discount actions val_dict s) <->
  In (fst b) actions /\
  snd b = q_at probs rewards discount val_dict s (fst b).
Proof.
  unfold q_table, graph. rewrite in_map_iff. split.
  - intros (k & <- & Hk).
    split; [now apply (In_uniq Action_eq_dec) | reflexivity].
  - intros [Hk E]. exists (fst b). split.
    + destruct b as [k v]. simpl in *. now subst.
    + now apply In_uniq.
Qed.

(** C10: after a successful call the value function and the policy have
    the members of [states] as keys, in the order of their first
    occurrences, which is [states] itself when the states are distinct, and
    every action of the policy is a member of [actions]. *)
Theorem result_keys_and_actions
    (states : list State) (actions : list Action)
    (horizon discount : number) (t : log State Action)
    (policy_dict : dict State Action) (val_dict : dict State float) :
  outcome (value_iteration' states actions probs rewards horizon discount) t
  = Val (Result policy_dict val_dict) ->
  keys val_dict = uniq State_eq_dec states /\
  keys policy_dict = uniq State_eq_dec states /\
  (NoDup states -> keys val_dict = states /\ keys policy_dict = states) /\
  (forall s a, In (s, a) policy_dict -> In a actions).
Proof.
  intros E. apply outcome_eq, value_iteration_result_inv, run_inv in E.
  destruct E as (Ev & Ep & Hpol).
  split; [exact Ev |]. split; [exact Ep |]. split.
  - intros Hnd. rewrite Ev, Ep. now rewrite (uniq_NoDup State_eq_dec Hnd).
  - intros s a Hsa.
    assert (Hs : In s states).
    { apply (In_uniq State_eq_dec). rewrite <- Ep.
      change s with (fst (s, a)). now apply in_map. }
    destruct (Hpol s Hs) as (_ & best & Eb & Eg).
    assert (Hnd : NoDup (keys policy_dict))
      by (rewrite Ep; apply NoDup_uniq).
    rewrite (dict_get_In State_eq_dec _ _ _ Hnd Hsa) in Eg.
    injection Eg as ->.
    apply py_max_by_In in Eb. now apply In_q_table in Eb.
Qed.

(** C7: at a state [s], when every action listed before [a] has a strictly
    smaller q-value under the returned value function and no action listed
    after [a] has a strictly greater one, the returned policy maps [s] to
    [a]: among tied maximal actions the first in the caller's order wins. *)
Theorem first_maximal_action_chosen
    (states : list State) (actions : list Action)
    (horizon discount : number) (t : log State Action)
    (policy_dict : dict State Action) (val_dict : dict State float)
    (s : State) (pre post : list Action) (a : Action) :
  outcome (value_iteration' states actions probs rewards horizon discount) t
  = Val (Result policy_dict val_dict) ->
  In s states ->
  actions = pre ++ a :: post ->
  (forall b, In b pre -> q_lt probs rewards discount val_dict s b a) ->
  (forall b, In b post -> ~ q_lt probs rewards discount val_dict s a b) ->
  dict_get State_eq_dec s policy_dict = Some a.
Proof.
  intros E Hs Hact Hpre Hpost.
  apply outcome_eq, value_iteration_result_inv, run_inv in E.
  destruct E as (_ & _ & Hpol).
  destruct (Hpol s Hs) as (Hok & best & Eb & Eg).
  rewrite forallb_forall in Hok.
  assert (Hq : forall b, In b actions ->
             q probs rewards discount val_dict s b
             = Val (q_at probs rewards discount val_dict s b))
    by (intros b Hb; apply q_Val; apply Hok; exact Hb).
  assert (Ha : ~ In a pre).
  { intros Hin. destruct (Hpre a Hin) as (x & y & Ex & Ey & Hlt).
    rewrite Ex in Ey. injection Ey as <-.
    now rewrite float_ltb_irrefl in Hlt. }
  destruct (@uniq_split Action Action_eq_dec pre post a Ha)
    as (pre' & post' & Eu & Hpre' & Hpost').
  rewrite <- Hact in Eu.
  set (f := q_at probs rewards discount val_dict s) in *.
  assert (Emax : py_max_by snd
                   (q_table Action_eq_dec probs rewards discount actions
                      val_dict s) = Val (a, f a)).
  { unfold q_table. rewrite Eu. unfold graph. rewrite map_app. cbn [map].
    apply py_max_by_first.
    - intros b Hb. apply in_map_iff in Hb. destruct Hb as (k & <- & Hk).
      change ((f k <? f a)%float = true).
      destruct (Hpre k (Hpre' k Hk)) as (x & y & Ex & Ey & Hlt).
      apply q_at_Val in Ex, Ey. fold f in Ex, Ey. now subst.
    - intros b Hb. apply in_map_iff in Hb. destruct Hb as (k & <- & Hk).
      change ((f a <? f k)%float = false).
      destruct (f a <? f k)%float eqn:Hlt; [| reflexivity].
      exfalso. apply (Hpost k (Hpost' k Hk)).
      exists (f a), (f k). split; [| split; [| exact Hlt]].
      + apply Hq. rewrite Hact. apply in_or_app. right. now left.
      + apply Hq. rewrite Hact. apply in_or_app. right. right.
        now apply Hpost'. }
  rewrite Emax in Eb. injection Eb as <-. exact Eg.
Qed.
End Results.

(** ** Empty inputs, bad transition vectors, horizon 0, determinism *)

Lemma numpy_multiply_cases (p v pv : list float) :
  numpy_multiply p v = Val pv ->
  pv = map (fun xy => (fst xy * snd xy)%float) (combine p v) \/
  (exists x, p = [x] /\ pv = map (fun y => (x * y)%float) v) \/
  (exists y, v = [y] /\ pv = map (fun x => (x * y)%float) p).
Proof.
  unfold numpy_multiply. destruct (length p =? length v)%nat.
  - intros E. left. congruence.
  - destruct p as [| x [| x' p]], v as [| y [| y' v]]; try discriminate;
      intros E; injection E as <-;
      first [ right; left; eexists; split; reflexivity
            | right; right; eexists; split; reflexivity ].
Qed.

(** Every entry of [p * v] is the product of an entry of [p] and an entry
    of [v]. *)
Lemma numpy_multiply_entries (p v pv : list float) (z : float) :
  numpy_multiply p v = Val pv -> In z pv ->
  exists x y, In x p /\ In y v /\ z = (x * y)%float.
Proof.
  intros E Hz.
  destruct (numpy_multiply_cases _ _ E)
    as [-> | [(x & -> & ->) | (y & -> & ->)]];
    apply in_map_iff in Hz.
  - destruct Hz as ([x y] & <- & Hxy). exists x, y.
    split; [eapply in_combine_l; eassumption |].
    split; [eapply in_combine_r; eassumption | reflexivity].
  - destruct Hz as (w & <- & Hw). exists x, w.
    split; [now left | split; [exact Hw | reflexivity]].
  - destruct Hz as (w & <- & Hw). exists w, y.
    split; [exact Hw | split; [now left | reflexivity]].
Qed.

Section Claims.
Variables State Action : Type.
Variable State_eq_dec : forall x y : State, {x = y} + {x <> y}.
Variable Action_eq_dec : forall x y : Action, {x = y} + {x <> y}.
Variable probs : State -> Action -> list float.
Variable rewards : State -> Action -> float.

Abbreviation value_iteration'' :=
  (value_iteration State_eq_dec Action_eq_dec).

(** C2 (amended): with no states and valid parameters the call succeeds
    and returns the empty policy and the empty value function; with states
    but no actions it returns no result, and with valid parameters it fails
    with the [ValueError] of [max] over the empty table.  In both cases no
    model function is called. *)
Theorem empty_states_or_actions
    (states : list State) (actions : list Action)
    (horizon discount : number) (t : log State Action) :
  states = [] \/ actions = [] ->
  let call := value_iteration'' states actions probs rewards horizon
                discount in
  calls call t = t /\
  (states = [] -> in_unit_interval discount -> valid_horizon horizon ->
   outcome call t = Val (Result [] [])) /\
  (states <> [] ->
   ~ returned_result (outcome call t) /\
   (in_unit_interval discount -> valid_horizon horizon ->
    outcome call t = Exc ValueError)).
Proof.
  intros Hempty call0.
  assert (Hrun : exists r,
             run State_eq_dec Action_eq_dec probs rewards discount states
               actions horizon t = (r, t) /\
             (states <> [] -> ~ returned_result r)).
  { destruct states as [| s rest].
    - eexists. split; [apply run_no_states | congruence].
    - destruct Hempty as [? | ->]; [discriminate |].
      eexists. split; [apply run_no_actions |].
      intros _ (pol & val & E). destruct (py_range horizon); discriminate. }
  destruct Hrun as (r & Er & Hr).
  split; [| split].
  - unfold calls.
    destruct (value_iteration_cases State_eq_dec Action_eq_dec probs rewards
                discount states actions horizon t)
      as [E | [E | [[e E] | E]]]; fold call0 in E; rewrite E;
      try reflexivity.
    now rewrite Er.
  - intros -> Hd Hh. unfold outcome, call0.
    rewrite value_iteration_valid, run_no_states by assumption.
    destruct Hh as (n & -> & _). reflexivity.
  - intros Hne. split.
    + intros (pol & val & E). apply outcome_eq in E.
      apply value_iteration_result_inv in E. rewrite Er in E.
      apply (Hr Hne). exists pol, val. congruence.
    + intros Hd Hh. unfold outcome, call0.
      rewrite value_iteration_valid by assumption.
      destruct states as [| s rest]; [congruence |].
      destruct Hempty as [? | ->]; [discriminate |].
      rewrite run_no_actions. destruct Hh as (n & -> & _). reflexivity.
Qed.

(** C3 (amended): when the transition vector of some state and action has
    a length that differs from the number of distinct states, and neither
    that length nor the number of states is 1, the call returns no policy
    or value function; with valid parameters it fails with the
    [ValueError] of the elementwise product. *)
Theorem incompatible_vector_fails
    (states : list State) (actions : list Action)
    (horizon discount : number) (t : log State Action)
    (s : State) (a : Action) :
  In s states -> In a actions ->
  length (probs s a) <> length (uniq State_eq_dec states) ->
  length (probs s a) <> 1 ->
  length (uniq State_eq_dec states) <> 1 ->
  let call := value_iteration'' states actions probs rewards horizon
                discount in
  ~ returned_result (outcome call t) /\
  (in_unit_interval discount -> valid_horizon horizon ->
   outcome call t = Exc ValueError).
Proof.
  intros Hs Ha Hlen Hp1 Hn1 call0.
  assert (Hno : ~ returned_result (outcome call0 t)).
  { intros (pol & val & E). apply outcome_eq in E.
    apply value_iteration_result_inv, run_inv in E.
    destruct E as (Ek & _ & Hpol). destruct (Hpol s Hs) as (Hok & _).
    rewrite forallb_forall in Hok. specialize (Hok a Ha).
    unfold q_ok, compatible in Hok.
    rewrite <- (length_keys val), Ek in Hok.
    apply orb_true_iff in Hok. destruct Hok as [Hok | Hok].
    - apply orb_true_iff in Hok. destruct Hok as [Hok | Hok];
        apply Nat.eqb_eq in Hok; contradiction.
    - apply Nat.eqb_eq in Hok. contradiction. }
  split; [exact Hno |].
  intros Hd Hh. unfold outcome, call0 in *.
  rewrite value_iteration_valid in * by assumption.
  destruct Hh as (n & -> & _).
  destruct (run_outcome State_eq_dec Action_eq_dec probs rewards discount
              states actions n t) as [H | H]; [contradiction | exact H].
Qed.

(** With an all-zero value function and finite transition vectors the
    q-value is the reward plus a zero. *)
Lemma q_zero_values (discount : number) (val_dict : dict State float)
    (s : State) (a : Action) (x : float) :
  in_unit_interval discount ->
  Forall finite (probs s a) ->
  (forall y, In y (values val_dict) -> y = 0%float) ->
  q probs rewards discount val_dict s a = Val x ->
  exists z, zero z /\ x = (rewards s a + z)%float.
Proof.
  intros Hd Hfin Hzero. unfold q.
  destruct (numpy_multiply (probs s a) (values val_dict)) as [pv | e] eqn:E;
    [| discriminate].
  intros Ex. injection Ex as <-. eexists. split; [| reflexivity].
  apply zero_mul_r; [now apply finite_unit_interval |].
  apply zero_py_sum, Forall_forall. intros z Hz.
  destruct (@numpy_multiply_entries _ _ _ _ E Hz) as (u & y & Hu & Hy & ->).
  rewrite (Hzero y Hy). apply zero_mul_r.
  - rewrite Forall_forall in Hfin. now apply Hfin.
  - vm_compute. exact I.
Qed.

(** C6: with horizon 0, a discount in [0, 1], at least one action and
    finite transition vectors of the right length, the call returns the
    value function that maps every state to 0 and a policy that maps every
    state to an action of [actions] which no action exceeds, neither in the
    q-value against the all-zero value function nor in the immediate
    reward. *)
Theorem horizon_zero_greedy
    (states : list State) (actions : list Action)
    (discount : number) (t : log State Action) :
  in_unit_interval discount ->
  actions <> [] ->
  (forall s a, In s states -> In a actions ->
     length (probs s a) = length (uniq State_eq_dec states) /\
     Forall finite (probs s a)) ->
  let zeros := graph (fun _ : State => 0%float) (uniq State_eq_dec states) in
  exists policy_dict,
    outcome (value_iteration'' states actions probs rewards (PyInt 0)
               discount) t
    = Val (Result policy_dict zeros) /\
    forall s, In s states ->
      exists a,
        dict_get State_eq_dec s policy_dict = Some a /\
        In a actions /\
        (forall b, In b actions ->
           ~ q_lt probs rewards discount zeros s a b) /\
        (forall b, In b actions ->
           (rewards s a <? rewards s b)%float = false).
Proof.
  intros Hd Hne Hvalid zeros.
  assert (Hh : valid_horizon (PyInt 0))
    by (exists 0%Z; split; [reflexivity | lia]).
  assert (Hc : forall s a, In s states -> In a actions ->
             compatible (probs s a) (length (uniq State_eq_dec states))
             = true).
  { intros s a Hs Ha. destruct (Hvalid s a Hs Ha) as [E _].
    unfold compatible. now rewrite E, Nat.eqb_refl. }
  destruct (run_total State_eq_dec Action_eq_dec probs rewards discount
              states 0 t Hne Hc) as (pol & val & t' & Er).
  pose proof Er as Er0.
  assert (Ev : val = zeros).
  { apply run_zero in Er0. rewrite Er0. apply dict_fromkeys_graph. }
  subst val. exists pol. split.
  - unfold outcome. rewrite value_iteration_valid by assumption.
    now rewrite Er.
  - apply run_inv in Er. destruct Er as (_ & _ & Hpol).
    intros s Hs. destruct (Hpol s Hs) as (Hok & best & Eb & Eg).
    rewrite forallb_forall in Hok.
    pose proof (py_max_by_In _ _ Eb) as Hbest.
    apply In_q_table in Hbest. destruct Hbest as [Ha Esnd].
    exists (fst best). split; [exact Eg |]. split; [exact Ha |].
    set (f := q_at probs rewards discount zeros s) in *.
    assert (Hmax : forall b, In b actions ->
                   (f (fst best) <? f b)%float = false).
    { intros b Hb. rewrite <- Esnd.
      change (f b) with (snd (b, f b)).
      apply (@py_max_by_maximal _ snd _ best (b, f b) Eb).
      apply In_q_table. now split. }
    assert (Hzero : forall y, In y (values zeros) -> y = 0%float).
    { intros y Hy. unfold zeros in Hy. rewrite values_graph in Hy.
      apply in_map_iff in Hy. now destruct Hy as (k & <- & _). }
    assert (Hq : forall b, In b actions ->
               exists z, zero z /\ f b = (rewards s b + z)%float).
    { intros b Hb. apply (@q_zero_values discount zeros s b (f b) Hd).
      - now apply Hvalid.
      - exact Hzero.
      - apply q_Val. now apply Hok. }
    split.
    + intros b Hb (x & y & Ex & Ey & Hlt).
      apply q_at_Val in Ex, Ey. fold f in Ex, Ey. subst x y.
      rewrite (Hmax b Hb) in Hlt. discriminate.
    + intros b Hb. specialize (Hmax b Hb).
      destruct (Hq _ Ha) as (za & Hza & Ea).
      destruct (Hq _ Hb) as (zb & Hzb & Ebq).
      rewrite Ea, Ebq in Hmax.
      now rewrite (@add_zero_ltb_l _ za _ Hza), (@add_zero_ltb_r _ zb _ Hzb)
        in Hmax.
Qed.

(** With pure model functions, a second invocation, made after a first
    one, returns what the first returned and extends the call log by the
    same calls. *)
Lemma value_iteration_twice
    (states : list State) (actions : list Action)
    (horizon discount : number) (t : log State Action) :
  let call := value_iteration'' states actions probs rewards horizon
                discount in
  outcome call (calls call t) = outcome call t /\
  exists l, calls call t = l ++ t /\ calls call (calls call t) = l ++ l ++ t.
Proof.
  intros call0.
  destruct (oblivious_value_iteration State_eq_dec Action_eq_dec probs
              rewards discount states actions horizon) as (r & l & H).
  unfold call0, outcome, calls. rewrite !H. cbn [fst snd].
  split; [reflexivity |]. exists l. now split.
Qed.
End Claims.

(** ** The theorems at concrete models *)

(** C2 (counterexample): with no states, one action and valid parameters
    the call does not fail with a parameter error: it returns the empty
    policy and the empty value function. *)
Lemma empty_states_accepted :
  outcome (value_iteration string_dec string_dec [] ["a0"] chain_probs
             chain_rewards (PyInt 2) (PyInt 1)) []
  = Val (Result [] []) /\
  ~ invalid_parameter
      (outcome (value_iteration string_dec string_dec [] ["a0"] chain_probs
                  chain_rewards (PyInt 2) (PyInt 1)) []).
Proof.
  split; [reflexivity |]. intros [H | H]; vm_compute in H; discriminate.
Qed.

(** C2 at the chain without states, and at the chain without actions. *)
Lemma empty_states_or_actions_witness :
  outcome (value_iteration string_dec string_dec [] ["a0"] chain_probs
             chain_rewards (PyInt 2) (PyInt 1)) []
  = Val (Result [] []) /\
  outcome (value_iteration string_dec string_dec ["s0"; "s1"] [] chain_probs
             chain_rewards (PyInt 2) (PyInt 1)) []
  = Exc ValueError.
Proof.
  assert (Hd : in_unit_interval (PyInt 1)) by (simpl; lia).
  assert (Hh : valid_horizon (PyInt 2))
    by (exists 2%Z; split; [reflexivity | lia]).
  split.
  - apply (@empty_states_or_actions string string string_dec string_dec
             chain_probs chain_rewards [] ["a0"] (PyInt 2) (PyInt 1) []
             (or_introl eq_refl)); [reflexivity | exact Hd | exact Hh].
  - apply (@empty_states_or_actions string string string_dec string_dec
             chain_probs chain_rewards ["s0"; "s1"] [] (PyInt 2) (PyInt 1) []
             (or_intror eq_refl)); [discriminate | exact Hd | exact Hh].
Defined.

(** C3 (counterexample): a transition vector that sums to one half is
    accepted, and the call returns a policy and a value function. *)
Lemma half_sum_accepted :
  py_sum (half_probs "s0" "a0") = 0.5%float /\
  outcome (value_iteration string_dec string_dec ["s0"] ["a0"] half_probs
             loop_rewards (PyInt 1) (PyInt 1)) []
  = Val (Result [("s0", "a0")] [("s0", 5%float)]).
Proof. split; vm_compute; reflexivity. Qed.

(** A transition vector with one entry is broadcast over two states, and
    a vector with an infinite entry is accepted as well. *)
Lemma broadcast_accepted :
  outcome (value_iteration string_dec string_dec ["s0"; "s1"] ["a0"]
             half_probs loop_rewards (PyInt 1) (PyInt 1)) []
  = Val (Result [("s0", "a0"); ("s1", "a0")]
           [("s0", 5%float); ("s1", 7.5%float)]).
Proof. vm_compute. reflexivity. Qed.

Lemma infinite_entry_accepted :
  returned_result
    (outcome (value_iteration string_dec string_dec ["s0"] ["a0"]
                (fun _ _ => [infinity]) loop_rewards (PyInt 1) (PyInt 1)) []).
Proof. eexists _, _. vm_compute. reflexivity. Qed.

(** C3 at three states with vectors of two entries. *)
Lemma incompatible_vector_fails_witness :
  ~ returned_result (outcome (short_vectors (PyInt 2) (PyInt 1)) []) /\
  outcome (short_vectors (PyInt 2) (PyInt 1)) [] = Exc ValueError.
Proof.
  assert (Hd : in_unit_interval (PyInt 1)) by (simpl; lia).
  assert (Hh : valid_horizon (PyInt 2))
    by (exists 2%Z; split; [reflexivity | lia]).
  destruct (@incompatible_vector_fails string string string_dec string_dec
              chain_probs chain_rewards ["s0"; "s1"; "s2"] ["a0"]
              (PyInt 2) (PyInt 1) [] "s0" "a0")
    as [Hno Hexc].
  - now left.
  - now left.
  - vm_compute. discriminate.
  - vm_compute. discriminate.
  - vm_compute. discriminate.
  - split; [exact Hno | exact (Hexc Hd Hh)].
Defined.

(** C6 at the chain with horizon 0. *)
Lemma horizon_zero_greedy_witness :
  exists policy_dict,
    outcome (chain (PyInt 0) (PyInt 1)) []
    = Val (Result policy_dict [("s0", 0%float); ("s1", 0%float)]) /\
    forall s, In s ["s0"; "s1"] ->
      exists a,
        dict_get string_dec s policy_dict = Some a /\
        In a ["a0"] /\
        (forall b, In b ["a0"] ->
           ~ q_lt chain_probs chain_rewards (PyInt 1)
               [("s0", 0%float); ("s1", 0%float)] s a b) /\
        (forall b, In b ["a0"] ->
           (chain_rewards s a <? chain_rewards s b)%float = false).
Proof.
  apply (@horizon_zero_greedy string string string_dec string_dec
           chain_probs chain_rewards ["s0"; "s1"] ["a0"] (PyInt 1) []).
  - simpl. lia.
  - discriminate.
  - intros s a [<- | [<- | []]] _; (split; [reflexivity |]);
      repeat constructor; vm_compute; exact I.
Defined.

(** C7 at the tie model: both actions have the q-value 1.875 under the
    returned value function, and the policy selects [a0]. *)
Lemma first_maximal_action_chosen_witness :
  outcome (tie (PyInt 3) (PyFloat 0.5)) []
  = Val (Result [("s0", "a0")] [("s0", 1.75%float)]) /\
  dict_get string_dec "s0" [("s0", "a0")] = Some "a0".
Proof.
  assert (E : outcome (tie (PyInt 3) (PyFloat 0.5)) []
              = Val (Result [("s0", "a0")] [("s0", 1.75%float)]))
    by (vm_compute; reflexivity).
  split; [exact E |].
  apply (@first_maximal_action_chosen string string string_dec string_dec
           loop_probs tie_rewards ["s0"] ["a0"; "a1"] (PyInt 3)
           (PyFloat 0.5) [] [("s0", "a0")] [("s0", 1.75%float)] "s0" []
           ["a1"] "a0" E).
  - now left.
  - reflexivity.
  - intros b [].
  - intros b [<- | []] (x & y & Ex & Ey & Hlt).
    vm_compute in Ex, Ey. injection Ex as <-. injection Ey as <-.
    vm_compute in Hlt. discriminate.
Defined.

(** C10 at the chain with horizon 2. *)
Lemma result_keys_and_actions_witness :
  keys [("s0", 2%float); ("s1", 2%float)] = ["s0"; "s1"] /\
  keys [("s0", "a0"); ("s1", "a0")] = ["s0"; "s1"] /\
  (forall s a, In (s, a) [("s0", "a0"); ("s1", "a0")] -> In a ["a0"]).
Proof.
  assert (E : outcome (chain (PyInt 2) (PyInt 1)) []
              = Val (Result [("s0", "a0"); ("s1", "a0")]
                       [("s0", 2%float); ("s1", 2%float)]))
    by (vm_compute; reflexivity).
  destruct (@result_keys_and_actions string string string_dec string_dec
              chain_probs chain_rewards ["s0"; "s1"] ["a0"] (PyInt 2)
              (PyInt 1) [] _ _ E)
    as (Hv & Hp & _ & Ha).
  split; [exact Hv |]. split; [exact Hp | exact Ha].
Defined.

(** * Further properties of [value_iteration] *)

(** ** The model calls *)

Lemma length_flat_map_const (X Y : Type) (f : X -> list Y) (k : nat)
    (l : list X) :
  (forall x, length (f x) = k) -> length (flat_map f l) = length l * k.
Proof.
  intros H. induction l as [| x l IH]; simpl; [reflexivity |].
  now rewrite length_app, H, IH.
Qed.

Lemma length_concat_repeat (X : Type) (x : list X) (n : nat) :
  length (concat (repeat x n)) = n * length x.
Proof.
  induction n as [| n IH]; simpl; [reflexivity |].
  now rewrite length_app, IH.
Qed.

Section CallFacts.
Variables State Action : Type.
Variable State_eq_dec : forall x y : State, {x = y} + {x <> y}.
Variable Action_eq_dec : forall x y : Action, {x = y} + {x <> y}.
Variable probs : State -> Action -> list float.
Variable rewards : State -> Action -> float.
Variable discount : number.

Lemma length_expected_calls (n : nat) (states : list State)
    (actions : list Action) :
  length (expected_calls n states actions)
  = 2 * (n + 1) * length states * length actions.
Proof.
  unfold expected_calls, sweep_calls.
  rewrite length_app, length_concat_repeat.
  rewrite (@length_flat_map_const _ _ (state_calls actions)
             (length actions * 2)).
  - nia.
  - intros s. unfold state_calls. now apply length_flat_map_const.
Qed.

Lemma In_expected_calls (n : nat) (states : list State)
    (actions : list Action) (c : call State Action) :
  In c (expected_calls n states actions) ->
  exists s a, In s states /\ In a actions /\
              (c = CallRewards s a \/ c = CallProbs s a).
Proof.
  assert (G : In c (sweep_calls states actions) ->
              exists s a, In s states /\ In a actions /\
                          (c = CallRewards s a \/ c = CallProbs s a)).
  { unfold sweep_calls, state_calls. intros H.
    apply in_flat_map in H. destruct H as (s & Hs & H).
    apply in_flat_map in H. destruct H as (a & Ha & H).
    exists s, a. split; [exact Hs |]. split; [exact Ha |].
    destruct H as [<- | [<- | []]]; [now left | now right]. }
  unfold expected_calls. rewrite in_app_iff. intros [H | H]; [| now apply G].
  apply in_concat in H. destruct H as (l & Hl & Hc).
  apply repeat_spec in Hl. subst l. now apply G.
Qed.

Lemma is_prefix_In (l full : list (call State Action))
    (c : call State Action) :
  is_prefix l full -> In c l -> In c full.
Proof. intros [rest ->] H. apply in_or_app. now left. Qed.

Lemma is_prefix_length (l full : list (call State Action)) :
  is_prefix l full -> length l <= length full.
Proof. intros [rest ->]. rewrite length_app. lia. Qed.

Lemma logs_ret (X : Type) (x : X) :
  logs (ret (State := State) (Action := Action) x) [].
Proof.
  intros t. exists []. split; [reflexivity |].
  split; [now exists [] | reflexivity].
Qed.

Lemma logs_lift (X : Type) (r : res X) :
  logs (lift (State := State) (Action := Action) r) [].
Proof.
  intros t. exists []. split; [reflexivity |].
  split; [now exists [] | reflexivity].
Qed.

Lemma logs_bind (X Y : Type) (m : M State Action X)
    (k : X -> M State Action Y) (f1 f2 : list (call State Action)) :
  logs m f1 -> (forall x, logs (k x) f2) -> logs (bind m k) (f1 ++ f2).
Proof.
  intros Hm Hk t. destruct (Hm t) as (d1 & E1 & P1 & V1).
  unfold calls, outcome, bind in *.
  destruct (m t) as [[x | e] t1]; cbn [fst snd] in *.
  - rewrite (V1 x eq_refl) in E1. subst t1.
    destruct (Hk x (rev f1 ++ t)) as (d2 & E2 & [rest P2] & V2).
    unfold calls, outcome in E2, V2.
    exists (f1 ++ d2). split; [| split].
    + rewrite E2, rev_app_distr, app_assoc. reflexivity.
    + exists rest. rewrite P2, app_assoc. reflexivity.
    + intros y Hy. now rewrite (V2 y Hy).
  - exists d1. split; [exact E1 |]. split.
    + destruct P1 as [rest ->]. exists (rest ++ f2).
      now rewrite app_assoc.
    + discriminate.
Qed.

Lemma logs_bind_val (X Y : Type) (v : X) (k : X -> M State Action Y)
    (f : list (call State Action)) :
  logs (k v) f -> logs (bind (lift (Val v)) k) f.
Proof. intros H t. exact (H t). Qed.

Lemma logs_q_value (val_dict : dict State float) (s : State) (a : Action) :
  logs (q_value probs rewards discount val_dict s a)
    [CallRewards s a; CallProbs s a].
Proof.
  intros t. exists [CallRewards s a; CallProbs s a].
  unfold calls. rewrite q_value_eq.
  split; [reflexivity |]. split; [now exists [] | reflexivity].
Qed.

Lemma logs_eval_actions (val_dict : dict State float) (s : State)
    (actions : list Action) :
  forall val_action,
  logs (eval_actions Action_eq_dec probs rewards discount val_dict s actions
          val_action)
    (state_calls actions s).
Proof.
  induction actions as [| a rest IH]; intros va; cbn [eval_actions].
  - apply logs_ret.
  - change (state_calls (a :: rest) s)
      with ([CallRewards s a; CallProbs s a] ++ state_calls rest s).
    apply logs_bind; [apply logs_q_value | intros x; apply IH].
Qed.

Lemma logs_backup_sweep (actions : list Action) (states : list State) :
  forall val_dict val_action,
  logs (backup_sweep State_eq_dec Action_eq_dec probs rewards discount
          actions states val_dict val_action)
    (sweep_calls states actions).
Proof.
  induction states as [| s rest IH]; intros val va; cbn [backup_sweep].
  - apply logs_ret.
  - change (sweep_calls (s :: rest) actions)
      with (state_calls actions s ++ [] ++ sweep_calls rest actions).
    apply logs_bind; [apply logs_eval_actions | intros va'].
    apply logs_bind; [apply logs_lift | intros v; apply IH].
Qed.

Lemma logs_extract_policy (actions : list Action) (states : list State) :
  forall val_dict val_action policy_dict,
  logs (extract_policy State_eq_dec Action_eq_dec probs rewards discount
          actions states val_dict val_action policy_dict)
    (sweep_calls states actions).
Proof.
  induction states as [| s rest IH]; intros val va pol;
    cbn [extract_policy].
  - apply logs_ret.
  - change (sweep_calls (s :: rest) actions)
      with (state_calls actions s ++ [] ++ sweep_calls rest actions).
    apply logs_bind; [apply logs_eval_actions | intros va'].
    apply logs_bind; [apply logs_lift | intros v; apply IH].
Qed.

Lemma logs_iterate (n : nat) (states : list State) (actions : list Action) :
  forall val_dict val_action,
  logs (iterate State_eq_dec Action_eq_dec probs rewards discount n states
          actions val_dict val_action)
    (concat (repeat (sweep_calls states actions) n)).
Proof.
  induction n as [| n IH]; intros val va; cbn [iterate repeat concat].
  - apply logs_ret.
  - apply logs_bind; [apply logs_backup_sweep | intros st; apply IH].
Qed.

Lemma logs_run (states : list State) (actions : list Action)
    (horizon : number) :
  logs (run State_eq_dec Action_eq_dec probs rewards discount states actions
          horizon)
    (expected_calls (sweeps horizon) states actions).
Proof.
  destruct horizon as [z | f].
  - unfold run, expected_calls. cbn [py_range sweeps].
    apply logs_bind_val.
    apply logs_bind; [apply logs_iterate | intros st].
    rewrite <- (app_nil_r (sweep_calls states actions)).
    apply logs_bind; [apply logs_extract_policy | intros pol].
    apply logs_ret.
  - intros t. exists []. split; [reflexivity |].
    split; [now eexists | discriminate].
Qed.

(** The calls of a whole invocation: a prefix of the expected calls, and
    all of them when a result is returned. *)
Lemma value_iteration_calls (states : list State) (actions : list Action)
    (horizon : number) (t : log State Action) :
  let call := value_iteration State_eq_dec Action_eq_dec states actions
                probs rewards horizon discount in
  exists done,
    calls call t = rev done ++ t /\
    is_prefix done (expected_calls (sweeps horizon) states actions) /\
    (returned_result (outcome call t) ->
     done = expected_calls (sweeps horizon) states actions).
Proof.
  intros call0. unfold calls, outcome.
  destruct (value_iteration_cases State_eq_dec Action_eq_dec probs rewards
              discount states actions horizon t)
    as [E | [E | [[e E] | E]]]; fold call0 in E; rewrite E.
  1-3: exists []; split; [reflexivity |]; split; [now eexists |];
       intros (pol & val & H); discriminate.
  destruct (logs_run states actions horizon t) as (done & Ec & Hp & Hv).
  exists done. split; [exact Ec |]. split; [exact Hp |].
  intros (pol & val & H). exact (Hv _ H).
Qed.
End CallFacts.

(** ** Lists with the same members *)

Lemma forallb_same_members (X : Type) (f : X -> bool) (l1 l2 : list X) :
  (forall x, In x l1 <-> In x l2) -> forallb f l1 = forallb f l2.
Proof.
  intros H. apply eq_true_iff_eq. rewrite !forallb_forall.
  split; intros G x Hx; apply G, H, Hx.
Qed.

Lemma uniq_idem (K : Type) (K_eq_dec : forall x y : K, {x = y} + {x <> y})
    (l : list K) :
  uniq K_eq_dec (uniq K_eq_dec l) = uniq K_eq_dec l.
Proof. apply uniq_NoDup, NoDup_uniq. Qed.

Section RepeatedActions.
Variables State Action : Type.
Variable State_eq_dec : forall x y : State, {x = y} + {x <> y}.
Variable Action_eq_dec : forall x y : Action, {x = y} + {x <> y}.
Variable probs : State -> Action -> list float.
Variable rewards : State -> Action -> float.
Variable discount : number.

Abbreviation once := (uniq Action_eq_dec).

Lemma q_table_once (actions : list Action) (val_dict : dict State float)
    (s : State) :
  q_table Action_eq_dec probs rewards discount (once actions) val_dict s
  = q_table Action_eq_dec probs rewards discount actions val_dict s.
Proof. unfold q_table. now rewrite uniq_idem. Qed.

Lemma actions_table_once (actions : list Action)
    (val_action : dict Action float) :
  actions_table Action_eq_dec actions val_action ->
  actions_table Action_eq_dec (once actions) val_action.
Proof. unfold actions_table. now rewrite uniq_idem. Qed.

(** The loop over the actions leaves the same table for [actions] and for
    [actions] without its repetitions. *)
Lemma eval_actions_once (val_dict : dict State float) (s : State)
    (actions : list Action) (val_action : dict Action float)
    (t t' : log State Action) :
  actions_table Action_eq_dec actions val_action ->
  fst (eval_actions Action_eq_dec probs rewards discount val_dict s actions
         val_action t)
  = fst (eval_actions Action_eq_dec probs rewards discount val_dict s
           (once actions) val_action t').
Proof.
  intros H.
  destruct (@eval_actions_table _ _ Action_eq_dec probs rewards discount
              val_dict s actions val_action t H) as [t1 E1].
  destruct (@eval_actions_table _ _ Action_eq_dec probs rewards discount
              val_dict s (once actions) val_action t'
              (actions_table_once H)) as [t2 E2].
  rewrite E1, E2. cbn [fst]. rewrite q_table_once.
  rewrite (@forallb_same_members _ (q_ok probs val_dict s) (once actions)
             actions (In_uniq Action_eq_dec actions)).
  reflexivity.
Qed.

Lemma backup_sweep_once (actions : list Action) (states : list State) :
  forall (val_dict : dict State float) (val_action : dict Action float)
         (t t' : log State Action),
  actions_table Action_eq_dec actions val_action ->
  fst (backup_sweep State_eq_dec Action_eq_dec probs rewards discount actions
         states val_dict val_action t)
  = fst (backup_sweep State_eq_dec Action_eq_dec probs rewards discount
           (once actions) states val_dict val_action t').
Proof.
  induction states as [| s rest IH]; intros val va t t' H;
    [reflexivity |].
  cbn [backup_sweep]. unfold bind.
  pose proof (eval_actions_once val s t t' H) as E.
  destruct (@eval_actions_table _ _ Action_eq_dec probs rewards discount
              val s actions va t H) as [t1 E1].
  rewrite E1 in E |- *. cbn [fst] in E.
  destruct (eval_actions Action_eq_dec probs rewards discount val s
              (once actions) va t') as [r2 t2].
  cbn [fst] in E. subst r2.
  destruct (forallb (q_ok probs val s) actions); [| reflexivity].
  unfold lift.
  destruct (py_max (values (q_table Action_eq_dec probs rewards discount
                              actions val s))) as [v | e]; [| reflexivity].
  apply IH, actions_table_q_table.
Qed.

Lemma extract_policy_once (actions : list Action) (states : list State) :
  forall (val_dict : dict State float) (val_action : dict Action float)
         (policy_dict : dict State Action) (t t' : log State Action),
  actions_table Action_eq_dec actions val_action ->
  fst (extract_policy State_eq_dec Action_eq_dec probs rewards discount
         actions states val_dict val_action policy_dict t)
  = fst (extract_policy State_eq_dec Action_eq_dec probs rewards discount
           (once actions) states val_dict val_action policy_dict t').
Proof.
  induction states as [| s rest IH]; intros val va pol t t' H;
    [reflexivity |].
  cbn [extract_policy]. unfold bind.
  pose proof (eval_actions_once val s t t' H) as E.
  destruct (@eval_actions_table _ _ Action_eq_dec probs rewards discount
              val s actions va t H) as [t1 E1].
  rewrite E1 in E |- *. cbn [fst] in E.
  destruct (eval_actions Action_eq_dec probs rewards discount val s
              (once actions) va t') as [r2 t2].
  cbn [fst] in E. subst r2.
  destruct (forallb (q_ok probs val s) actions); [| reflexivity].
  unfold lift.
  destruct (py_max_by snd (q_table Action_eq_dec probs rewards discount
                             actions val s)) as [best | e]; [| reflexivity].
  apply IH, actions_table_q_table.
Qed.

Lemma iterate_once (n : nat) (states : list State) (actions : list Action) :
  forall (val_dict : dict State float) (val_action : dict Action float)
         (t t' : log State Action),
  (forall s, In s states -> In s (keys val_dict)) ->
  actions_table Action_eq_dec actions val_action ->
  fst (iterate State_eq_dec Action_eq_dec probs rewards discount n states
         actions val_dict val_action t)
  = fst (iterate State_eq_dec Action_eq_dec probs rewards discount n states
           (once actions) val_dict val_action t').
Proof.
  induction n as [| n IH]; intros val va t t' Hin H; [reflexivity |].
  cbn [iterate]. unfold bind.
  pose proof (backup_sweep_once states val t t' H) as E.
  destruct (backup_sweep State_eq_dec Action_eq_dec probs rewards discount
              actions states val va t) as [[[val1 va1] | e] t1] eqn:E1;
    destruct (backup_sweep State_eq_dec Action_eq_dec probs rewards discount
                (once actions) states val va t') as [r2 t2];
    cbn [fst] in E; subst r2; [| reflexivity].
  destruct (@backup_sweep_inv _ _ State_eq_dec Action_eq_dec probs rewards
              discount actions states val va t val1 va1 t1 Hin H E1)
    as [Ek Ht].
  cbn [fst snd]. apply IH; [| exact Ht].
  intros s Hs. rewrite Ek. now apply Hin.
Qed.

Lemma run_once (states : list State) (actions : list Action)
    (horizon : number) (t t' : log State Action) :
  fst (run State_eq_dec Action_eq_dec probs rewards discount states actions
         horizon t)
  = fst (run State_eq_dec Action_eq_dec probs rewards discount states
           (once actions) horizon t').
Proof.
  unfold run, bind, lift.
  destruct (py_range horizon) as [n | e]; [| reflexivity].
  pose proof (@iterate_once n states actions
                (dict_fromkeys State_eq_dec states 0%float) [] t t'
                (In_keys_dict_fromkeys State_eq_dec states)
                (or_introl eq_refl)) as E.
  destruct (iterate State_eq_dec Action_eq_dec probs rewards discount n
              states actions _ [] t) as [[[val1 va1] | e] t1] eqn:E1;
    destruct (iterate State_eq_dec Action_eq_dec probs rewards discount n
                states (once actions) _ [] t') as [r2 t2];
    cbn [fst] in E; subst r2; [| reflexivity].
  destruct (@iterate_inv _ _ State_eq_dec Action_eq_dec probs rewards
              discount n states actions _ [] t val1 va1 t1
              (In_keys_dict_fromkeys State_eq_dec states)
              (or_introl eq_refl) E1) as [_ Ht].
  cbn [fst snd].
  pose proof (@extract_policy_once actions states val1 va1 [] t1 t2 Ht)
    as Ep.
  destruct (extract_policy State_eq_dec Action_eq_dec probs rewards discount
              actions states val1 va1 [] t1) as [r3 t3];
    destruct (extract_policy State_eq_dec Action_eq_dec probs rewards
                discount (once actions) states val1 va1 [] t2) as [r4 t4].
  cbn [fst] in Ep. subst r4. destruct r3; reflexivity.
Qed.
End RepeatedActions.

(** ** Properties of a call *)

Section Extras.
Variables State Action : Type.
Variable State_eq_dec : forall x y : State, {x = y} + {x <> y}.
Variable Action_eq_dec : forall x y : Action, {x = y} + {x <> y}.
Variable probs : State -> Action -> list float.
Variable rewards : State -> Action -> float.

Abbreviation engine := (value_iteration State_eq_dec Action_eq_dec).

(** X1: a call that returns a result has called [rewards] and then [probs]
    once for every state and action, states first, in [horizon] sweeps and
    the policy pass: [2 * (horizon + 1) * |states| * |actions|] calls. *)
Theorem successful_call_log
    (states : list State) (actions : list Action)
    (horizon discount : number) (t : log State Action) :
  let call := engine states actions probs rewards horizon discount in
  returned_result (outcome call t) ->
  calls call t = rev (expected_calls (sweeps horizon) states actions) ++ t /\
  length (calls call t)
  = 2 * (sweeps horizon + 1) * length states * length actions + length t.
Proof.
  intros call0 Hres.
  destruct (value_iteration_calls State_eq_dec Action_eq_dec probs rewards
              discount states actions horizon t) as (done & Ec & _ & Hd).
  cbv zeta in Ec, Hd. unfold call0 in *. rewrite (Hd Hres) in Ec.
  split; [exact Ec |].
  now rewrite Ec, length_app, length_rev, length_expected_calls.
Qed.

(** X2: whatever the outcome, the calls made are an initial part of that
    sequence: the model functions are never called more often, nor in
    another order. *)
Theorem call_log_prefix
    (states : list State) (actions : list Action)
    (horizon discount : number) (t : log State Action) :
  let call := engine states actions probs rewards horizon discount in
  exists done,
    calls call t = rev done ++ t /\
    is_prefix done (expected_calls (sweeps horizon) states actions) /\
    length done <= 2 * (sweeps horizon + 1) * length states * length actions.
Proof.
  intros call0.
  destruct (value_iteration_calls State_eq_dec Action_eq_dec probs rewards
              discount states actions horizon t) as (done & Ec & Hp & _).
  cbv zeta in Ec. unfold call0.
  exists done. split; [exact Ec |]. split; [exact Hp |].
  rewrite <- length_expected_calls. now apply is_prefix_length.
Qed.

(** X3: the model functions are only called on a state of [states] and an
    action of [actions]. *)
Theorem calls_on_listed_pairs
    (states : list State) (actions : list Action)
    (horizon discount : number) (t : log State Action) :
  let call := engine states actions probs rewards horizon discount in
  exists made,
    calls call t = made ++ t /\
    forall c, In c made ->
      exists s a, In s states /\ In a actions /\
                  (c = CallRewards s a \/ c = CallProbs s a).
Proof.
  intros call0.
  destruct (value_iteration_calls State_eq_dec Action_eq_dec probs rewards
              discount states actions horizon t) as (done & Ec & Hp & _).
  cbv zeta in Ec. unfold call0.
  exists (rev done). split; [exact Ec |].
  intros c Hc. apply in_rev in Hc.
  eapply In_expected_calls, is_prefix_In; eassumption.
Qed.

(** X4: the returned policy is greedy for the returned value function: at
    every state the q-value of every action is defined, and no action has a
    strictly greater q-value than the action of the policy. *)
Theorem policy_is_greedy
    (states : list State) (actions : list Action)
    (horizon discount : number) (t : log State Action)
    (policy_dict : dict State Action) (val_dict : dict State float) :
  outcome (engine states actions probs rewards horizon discount) t
  = Val (Result policy_dict val_dict) ->
  forall s, In s states ->
    exists a,
      dict_get State_eq_dec s policy_dict = Some a /\
      In a actions /\
      forall b, In b actions ->
        (exists x, q probs rewards discount val_dict s b = Val x) /\
        ~ q_lt probs rewards discount val_dict s a b.
Proof.
  intros E s Hs. apply outcome_eq, value_iteration_result_inv, run_inv in E.
  destruct E as (_ & _ & Hpol).
  destruct (Hpol s Hs) as (Hok & best & Eb & Eg).
  rewrite forallb_forall in Hok.
  pose proof (py_max_by_In _ _ Eb) as Hbest.
  apply In_q_table in Hbest. destruct Hbest as [Ha Esnd].
  exists (fst best). split; [exact Eg |]. split; [exact Ha |].
  intros b Hb. split.
  - eexists. apply q_Val. now apply Hok.
  - intros (x & y & Ex & Ey & Hlt).
    apply q_at_Val in Ex, Ey. subst x y. rewrite <- Esnd in Hlt.
    assert (Hin : In (b, q_at probs rewards discount val_dict s b)
                    (q_table Action_eq_dec probs rewards discount actions
                       val_dict s))
      by (apply In_q_table; now split).
    pose proof (@py_max_by_maximal _ snd _ best _ Eb Hin) as Hmax.
    cbn [snd] in Hmax. congruence.
Qed.

(** For model functions that are pure and return arrays: with a discount
    in [0, 1] and a non-negative [int] horizon, the call returns a result
    exactly when there is no state, or there is an action and every
    transition vector has as many entries as there are distinct states, or
    one entry, or there is one state. *)
Lemma arrays_return_iff
    (states : list State) (actions : list Action)
    (horizon discount : number) (t : log State Action) :
  in_unit_interval discount -> valid_horizon horizon ->
  returned_result
    (outcome (engine states actions probs rewards horizon discount) t)
  <->
  states = [] \/
  (actions <> [] /\
   forall s a, In s states -> In a actions ->
     compatible (probs s a) (length (uniq State_eq_dec states)) = true).
Proof.
  intros Hd Hh. split.
  - intros (pol & val & E).
    apply outcome_eq, value_iteration_result_inv, run_inv in E.
    destruct E as (Ek & _ & Hpol).
    destruct states as [| s0 rest]; [now left | right]. split.
    + intros ->. destruct (Hpol s0 (or_introl eq_refl)) as (_ & best & Eb & _).
      discriminate Eb.
    + intros s a Hs Ha. destruct (Hpol s Hs) as (Hok & _).
      rewrite forallb_forall in Hok. specialize (Hok a Ha).
      unfold q_ok in Hok. now rewrite <- (length_keys val), Ek in Hok.
  - unfold outcome. rewrite value_iteration_valid by assumption.
    destruct Hh as (n & -> & _). intros [-> | [Hne Hc]].
    + rewrite run_no_states. eexists _, _. reflexivity.
    + destruct (@run_total _ _ State_eq_dec Action_eq_dec probs rewards
                  discount states actions n t Hne Hc)
        as (pol & val & t' & Er).
      rewrite Er. now exists pol, val.
Qed.

(** For model functions that are pure and return arrays: with a discount
    in [0, 1] and a non-negative [int] horizon, a call that returns no
    result raises [ValueError]. *)
Lemma arrays_result_or_ValueError
    (states : list State) (actions : list Action)
    (horizon discount : number) (t : log State Action) :
  in_unit_interval discount -> valid_horizon horizon ->
  let call := engine states actions probs rewards horizon discount in
  returned_result (outcome call t) \/ outcome call t = Exc ValueError.
Proof.
  intros Hd Hh call0. unfold outcome, call0.
  rewrite value_iteration_valid by assumption.
  destruct Hh as (n & -> & _). apply run_outcome.
Qed.

(** X7: a [float] horizon never gives a result, whatever its value, and no
    model function is called: a horizon that passes the two checks is
    refused by [range]. *)
Theorem float_horizon_never_returns
    (states : list State) (actions : list Action)
    (f : float) (discount : number) (t : log State Action) :
  let call := engine states actions probs rewards (PyFloat f) discount in
  ~ returned_result (outcome call t) /\ calls call t = t.
Proof.
  intros call0. unfold outcome, calls.
  destruct (value_iteration_cases State_eq_dec Action_eq_dec probs rewards
              discount states actions (PyFloat f) t)
    as [E | [E | [[e E] | E]]]; fold call0 in E; rewrite E;
    (split; [| reflexivity]); intros (pol & val & H); discriminate.
Qed.

(** X8: listing an action more than once does not change the outcome: the
    call returns the same policy and value function, or fails in the same
    way, as with the repetitions removed. *)
Theorem repeated_actions_irrelevant
    (states : list State) (actions : list Action)
    (horizon discount : number) (t t' : log State Action) :
  outcome (engine states actions probs rewards horizon discount) t
  = outcome (engine states (uniq Action_eq_dec actions) probs rewards
               horizon discount) t'.
Proof.
  unfold outcome, value_iteration, value_iteration_body.
  destruct (num_gt1 discount || num_lt0 discount); [reflexivity |].
  unfold bind.
  pose proof (horizon_invalid_log (State := State) (Action := Action)
                horizon t) as Hl.
  pose proof (horizon_invalid_log (State := State) (Action := Action)
                horizon t') as Hl'.
  assert (Hb : fst (horizon_invalid (State := State) (Action := Action)
                      horizon t)
               = fst (horizon_invalid horizon t')).
  { unfold horizon_invalid, bind, lift, ret.
    destruct (num_lt0 horizon); [reflexivity |].
    destruct (py_int horizon); reflexivity. }
  destruct (horizon_invalid horizon t) as [r1 t1],
      (horizon_invalid horizon t') as [r2 t2].
  cbn [fst snd] in *. subst. destruct r2 as [[|] | e]; try reflexivity.
  apply run_once.
Qed.
End Extras.

(** X1 at the chain with horizon 2: twelve calls. *)
Lemma successful_call_log_witness :
  calls (chain (PyInt 2) (PyInt 1)) []
  = rev (expected_calls 2 ["s0"; "s1"] ["a0"]) /\
  length (calls (chain (PyInt 2) (PyInt 1)) []) = 12.
Proof.
  destruct (@successful_call_log string string string_dec string_dec
              chain_probs chain_rewards ["s0"; "s1"] ["a0"] (PyInt 2)
              (PyInt 1) []) as [Hc Hl].
  - eexists _, _. vm_compute. reflexivity.
  - split; [| exact Hl]. etransitivity; [exact Hc | apply app_nil_r].
Defined.

(** X4 at the tie model. *)
Lemma policy_is_greedy_witness :
  exists a,
    dict_get string_dec "s0" [("s0", "a0")] = Some a /\
    In a ["a0"; "a1"] /\
    forall b, In b ["a0"; "a1"] ->
      (exists x, q loop_probs tie_rewards (PyFloat 0.5)
                   [("s0", 1.75%float)] "s0" b = Val x) /\
      ~ q_lt loop_probs tie_rewards (PyFloat 0.5) [("s0", 1.75%float)]
          "s0" a b.
Proof.
  apply (@policy_is_greedy string string string_dec string_dec loop_probs
           tie_rewards ["s0"] ["a0"; "a1"] (PyInt 3) (PyFloat 0.5) []
           [("s0", "a0")] [("s0", 1.75%float)]).
  - vm_compute. reflexivity.
  - now left.
Defined.

(** * The engine over callables *)

Lemma numpy_multiply_exn (p v : list float) (e : exn) :
  numpy_multiply p v = Exc e -> e = ValueError.
Proof.
  destruct (compatible p (length v)) eqn:H.
  - destruct (numpy_multiply_compatible _ _ H) as [pv ->]. discriminate.
  - rewrite (numpy_multiply_incompatible _ _ H). congruence.
Qed.

(** ** Callables that return the same values give the same outcome *)

Section EnvAgree.
Variables State Action W1 W2 : Type.
Variable State_eq_dec : forall x y : State, {x = y} + {x <> y}.
Variable Action_eq_dec : forall x y : Action, {x = y} + {x <> y}.
Variable probs1 : State -> Action -> W1 -> vector * W1.
Variable rewards1 : State -> Action -> W1 -> float * W1.
Variable probs2 : State -> Action -> W2 -> vector * W2.
Variable rewards2 : State -> Action -> W2 -> float * W2.
Variable discount : number.

(** The two pairs of callables return the same values at [s] and [a]. *)
Let same_at (s : State) (a : Action) : Prop :=
  (forall w1 w2, fst (probs1 s a w1) = fst (probs2 s a w2)) /\
  (forall w1 w2, fst (rewards1 s a w1) = fst (rewards2 s a w2)).

Lemma agree_ret (X : Type) (x : X) :
  agree (env_ret (W := W1) x) (env_ret (W := W2) x).
Proof. intros w1 w2. reflexivity. Qed.

Lemma agree_lift (X : Type) (r : res X) :
  agree (env_lift (W := W1) r) (env_lift (W := W2) r).
Proof. intros w1 w2. reflexivity. Qed.

Lemma agree_bind (X Y : Type) (m1 : Env W1 X) (m2 : Env W2 X)
    (k1 : X -> Env W1 Y) (k2 : X -> Env W2 Y) :
  agree m1 m2 -> (forall x, agree (k1 x) (k2 x)) ->
  agree (env_bind m1 k1) (env_bind m2 k2).
Proof.
  intros Hm Hk w1 w2. unfold env_bind. specialize (Hm w1 w2).
  destruct (m1 w1) as [r1 w1'], (m2 w2) as [r2 w2']. cbn [fst] in Hm.
  subst r2. destruct r1 as [x | e]; [apply Hk | reflexivity].
Qed.

Lemma agree_q_value (val_dict : dict State float) (s : State) (a : Action) :
  same_at s a ->
  agree (q_value_env probs1 rewards1 discount val_dict s a)
        (q_value_env probs2 rewards2 discount val_dict s a).
Proof.
  intros [Hp Hr] w1 w2.
  unfold q_value_env, env_bind, env_call, env_lift, env_ret.
  rewrite (Hr w1 w2),
    (Hp (snd (rewards1 s a w1)) (snd (rewards2 s a w2))).
  destruct (py_multiply _ _); reflexivity.
Qed.

Lemma agree_eval_actions (val_dict : dict State float) (s : State)
    (actions : list Action) :
  (forall a, In a actions -> same_at s a) ->
  forall val_action,
  agree (eval_actions_env Action_eq_dec probs1 rewards1 discount val_dict s
           actions val_action)
        (eval_actions_env Action_eq_dec probs2 rewards2 discount val_dict s
           actions val_action).
Proof.
  induction actions as [| a rest IH]; intros H va; cbn [eval_actions_env].
  - apply agree_ret.
  - apply agree_bind.
    + apply agree_q_value, H. now left.
    + intros x. apply IH. intros b Hb. apply H. now right.
Qed.

Lemma agree_backup_sweep (actions : list Action) (states : list State) :
  (forall s a, In s states -> In a actions -> same_at s a) ->
  forall val_dict val_action,
  agree (backup_sweep_env State_eq_dec Action_eq_dec probs1 rewards1
           discount actions states val_dict val_action)
        (backup_sweep_env State_eq_dec Action_eq_dec probs2 rewards2
           discount actions states val_dict val_action).
Proof.
  induction states as [| s rest IH]; intros H val va;
    cbn [backup_sweep_env].
  - apply agree_ret.
  - apply agree_bind.
    + apply agree_eval_actions. intros a Ha. apply H; [now left | exact Ha].
    + intros va'. apply agree_bind; [apply agree_lift | intros v].
      apply IH. intros s' a Hs Ha. apply H; [now right | exact Ha].
Qed.

Lemma agree_extract_policy (actions : list Action) (states : list State) :
  (forall s a, In s states -> In a actions -> same_at s a) ->
  forall val_dict val_action policy_dict,
  agree (extract_policy_env State_eq_dec Action_eq_dec probs1 rewards1
           discount actions states val_dict val_action policy_dict)
        (extract_policy_env State_eq_dec Action_eq_dec probs2 rewards2
           discount actions states val_dict val_action policy_dict).
Proof.
  induction states as [| s rest IH]; intros H val va pol;
    cbn [extract_policy_env].
  - apply agree_ret.
  - apply agree_bind.
    + apply agree_eval_actions. intros a Ha. apply H; [now left | exact Ha].
    + intros va'. apply agree_bind; [apply agree_lift | intros best].
      apply IH. intros s' a Hs Ha. apply H; [now right | exact Ha].
Qed.

Lemma agree_iterate (n : nat) (states : list State)
    (actions : list Action) :
  (forall s a, In s states -> In a actions -> same_at s a) ->
  forall val_dict val_action,
  agree (iterate_env State_eq_dec Action_eq_dec probs1 rewards1 discount n
           states actions val_dict val_action)
        (iterate_env State_eq_dec Action_eq_dec probs2 rewards2 discount n
           states actions val_dict val_action).
Proof.
  intros H. induction n as [| n IH]; intros val va; cbn [iterate_env].
  - apply agree_ret.
  - apply agree_bind; [now apply agree_backup_sweep | intros st; apply IH].
Qed.

Lemma agree_run (states : list State) (actions : list Action)
    (horizon : number) :
  (forall s a, In s states -> In a actions -> same_at s a) ->
  agree (run_env State_eq_dec Action_eq_dec probs1 rewards1 discount states
           actions horizon)
        (run_env State_eq_dec Action_eq_dec probs2 rewards2 discount states
           actions horizon).
Proof.
  intros H. unfold run_env.
  apply agree_bind; [apply agree_lift | intros n].
  apply agree_bind; [now apply agree_iterate | intros st].
  apply agree_bind; [now apply agree_extract_policy | intros pol].
  apply agree_ret.
Qed.

(** Two invocations whose callables return the same values on the listed
    states and actions have the same outcome. *)
Lemma agree_value_iteration (states : list State) (actions : list Action)
    (horizon : number) :
  (forall s a, In s states -> In a actions ->
     (forall w1 w2, fst (probs1 s a w1) = fst (probs2 s a w2)) /\
     (forall w1 w2, fst (rewards1 s a w1) = fst (rewards2 s a w2))) ->
  agree (value_iteration_env State_eq_dec Action_eq_dec states actions
           probs1 rewards1 horizon discount)
        (value_iteration_env State_eq_dec Action_eq_dec states actions
           probs2 rewards2 horizon discount).
Proof.
  intros H. unfold value_iteration_env, value_iteration_env_body.
  destruct (num_gt1 discount || num_lt0 discount); [apply agree_ret |].
  apply agree_bind.
  - unfold horizon_invalid_env. destruct (num_lt0 horizon);
      [apply agree_ret |].
    apply agree_bind; [apply agree_lift | intros i; apply agree_ret].
  - intros [|]; [apply agree_ret | now apply agree_run].
Qed.
End EnvAgree.

(** ** The engine for logged pure functions is this engine *)

Section EnvLogged.
Variables State Action : Type.
Variable State_eq_dec : forall x y : State, {x = y} + {x <> y}.
Variable Action_eq_dec : forall x y : Action, {x = y} + {x <> y}.
Variable probs : State -> Action -> list float.
Variable rewards : State -> Action -> float.
Variable discount : number.

Abbreviation lp := (logged_probs probs).
Abbreviation lr := (logged_rewards rewards).

Lemma q_value_env_logged (val_dict : dict State float) (s : State)
    (a : Action) (t : log State Action) :
  q_value_env lp lr discount val_dict s a t
  = q_value probs rewards discount val_dict s a t.
Proof. reflexivity. Qed.

(** The engine over callables, run on logged pure functions that return
    arrays, is the engine of the first part, log included. *)
Lemma value_iteration_env_logged (states : list State)
    (actions : list Action) (horizon : number) (t : log State Action) :
  value_iteration_env State_eq_dec Action_eq_dec states actions lp lr
    horizon discount t
  = value_iteration State_eq_dec Action_eq_dec states actions probs rewards
      horizon discount t.
Proof. reflexivity. Qed.
End EnvLogged.

(** ** Exceptions and results of the engine over callables *)

Section EnvFacts.
Variables State Action W : Type.
Variable State_eq_dec : forall x y : State, {x = y} + {x <> y}.
Variable Action_eq_dec : forall x y : Action, {x = y} + {x <> y}.
Variable probs : State -> Action -> W -> vector * W.
Variable rewards : State -> Action -> W -> float * W.
Variable discount : number.

(** The exceptions of the loops: numpy's [ValueError] and [max]'s, and the
    [TypeError] of a list operand. *)
Let loop_exn (e : exn) : Prop := e = ValueError \/ e = TypeError.

Lemma q_value_env_eq (val_dict : dict State float) (s : State) (a : Action)
    (w : W) :
  fst (q_value_env probs rewards discount val_dict s a w)
  = match py_multiply (fst (probs s a (snd (rewards s a w))))
            (values val_dict) with
    | Val pv =>
        Val (fst (rewards s a w) + to_float discount * py_sum pv)%float
    | Exc e => Exc e
    end.
Proof.
  unfold q_value_env, env_bind, env_call, env_lift, env_ret.
  destruct (py_multiply _ _); reflexivity.
Qed.

Lemma q_value_env_exn (val_dict : dict State float) (s : State) (a : Action)
    (w : W) (e : exn) :
  fst (q_value_env probs rewards discount val_dict s a w) = Exc e ->
  loop_exn e.
Proof.
  rewrite q_value_env_eq.
  destruct (fst (probs s a (snd (rewards s a w)))) as [p | p];
    cbn [py_multiply].
  - destruct (numpy_multiply p (values val_dict)) as [pv | e'] eqn:E;
      [discriminate |].
    intros H. injection H as <-. left. eapply numpy_multiply_exn, E.
  - intros H. injection H as <-. now right.
Qed.

(** A q-value is only computed from an array. *)
Lemma q_value_env_array (val_dict : dict State float) (s : State)
    (a : Action) (w : W) (x : float) :
  fst (q_value_env probs rewards discount val_dict s a w) = Val x ->
  exists p, fst (probs s a (snd (rewards s a w))) = NdArray p.
Proof.
  rewrite q_value_env_eq.
  destruct (fst (probs s a (snd (rewards s a w)))) as [p | p];
    [now exists p | discriminate].
Qed.

Lemma eval_actions_env_exn (val_dict : dict State float) (s : State)
    (actions : list Action) :
  forall val_action w e,
  fst (eval_actions_env Action_eq_dec probs rewards discount val_dict s
         actions val_action w) = Exc e ->
  loop_exn e.
Proof.
  induction actions as [| a rest IH]; intros va w e;
    cbn [eval_actions_env]; [discriminate |].
  unfold env_bind.
  pose proof (@q_value_env_exn val_dict s a w) as Hq.
  destruct (q_value_env probs rewards discount val_dict s a w)
    as [[x | e'] w'].
  - apply IH.
  - cbn [fst] in *. intros H. injection H as <-. now apply Hq.
Qed.

Lemma eval_actions_env_arrays (val_dict : dict State float) (s : State)
    (actions : list Action) :
  pure_model probs ->
  forall val_action w val_action',
  fst (eval_actions_env Action_eq_dec probs rewards discount val_dict s
         actions val_action w) = Val val_action' ->
  forall a w0, In a actions -> exists p, fst (probs s a w0) = NdArray p.
Proof.
  intros Hp.
  induction actions as [| a rest IH]; intros va w va';
    cbn [eval_actions_env]; [intros _ b w0 [] |].
  unfold env_bind.
  pose proof (@q_value_env_array val_dict s a w) as Hq.
  destruct (q_value_env probs rewards discount val_dict s a w)
    as [[x | e'] w']; [| discriminate].
  cbn [fst] in Hq. intros H b w0 [<- | Hb].
  - destruct (Hq x eq_refl) as [p Ep]. exists p.
    now rewrite (Hp s a w0 (snd (rewards s a w))).
  - exact (IH _ _ _ H b w0 Hb).
Qed.
Lemma backup_sweep_env_exn (actions : list Action) (states : list State) :
  forall val_dict val_action w e,
  fst (backup_sweep_env State_eq_dec Action_eq_dec probs rewards discount
         actions states val_dict val_action w) = Exc e ->
  loop_exn e.
Proof.
  induction states as [| s rest IH]; intros val va w e;
    cbn [backup_sweep_env]; [discriminate |].
  unfold env_bind, env_lift.
  pose proof (@eval_actions_env_exn val s actions va w) as He.
  destruct (eval_actions_env Action_eq_dec probs rewards discount val s
              actions va w) as [[va' | e'] w'].
  - destruct (py_max (values va')) as [v | e'] eqn:Em; [apply IH |].
    cbn [fst]. intros H. injection H as <-. left.
    eapply py_max_by_exn, Em.
  - cbn [fst] in *. intros H. injection H as <-. now apply He.
Qed.

Lemma iterate_env_exn (n : nat) (states : list State)
    (actions : list Action) :
  forall val_dict val_action w e,
  fst (iterate_env State_eq_dec Action_eq_dec probs rewards discount n
         states actions val_dict val_action w) = Exc e ->
  loop_exn e.
Proof.
  induction n as [| n IH]; intros val va w e; cbn [iterate_env];
    [discriminate |].
  unfold env_bind.
  pose proof (@backup_sweep_env_exn actions states val va w) as Hs.
  destruct (backup_sweep_env State_eq_dec Action_eq_dec probs rewards
              discount actions states val va w) as [[st | e'] w'].
  - apply IH.
  - cbn [fst] in *. intros H. injection H as <-. now apply Hs.
Qed.

Lemma extract_policy_env_exn (actions : list Action)
    (states : list State) :
  forall val_dict val_action policy_dict w e,
  fst (extract_policy_env State_eq_dec Action_eq_dec probs rewards discount
         actions states val_dict val_action policy_dict w) = Exc e ->
  loop_exn e.
Proof.
  induction states as [| s rest IH]; intros val va pol w e;
    cbn [extract_policy_env]; [discriminate |].
  unfold env_bind, env_lift.
  pose proof (@eval_actions_env_exn val s actions va w) as He.
  destruct (eval_actions_env Action_eq_dec probs rewards discount val s
              actions va w) as [[va' | e'] w'].
  - destruct (py_max_by snd va') as [best | e'] eqn:Em; [apply IH |].
    cbn [fst]. intros H. injection H as <-. left.
    eapply py_max_by_exn, Em.
  - cbn [fst] in *. intros H. injection H as <-. now apply He.
Qed.

Lemma extract_policy_env_arrays (actions : list Action)
    (states : list State) :
  pure_model probs ->
  forall val_dict val_action policy_dict w policy_dict',
  fst (extract_policy_env State_eq_dec Action_eq_dec probs rewards discount
         actions states val_dict val_action policy_dict w)
  = Val policy_dict' ->
  forall s a w0, In s states -> In a actions ->
    exists p, fst (probs s a w0) = NdArray p.
Proof.
  intros Hp.
  induction states as [| s rest IH]; intros val va pol w pol';
    cbn [extract_policy_env]; [intros _ s a w0 [] |].
  unfold env_bind, env_lift.
  pose proof (@eval_actions_env_arrays val s actions Hp va w) as He.
  destruct (eval_actions_env Action_eq_dec probs rewards discount val s
              actions va w) as [[va' | e'] w']; [| discriminate].
  cbn [fst] in He. specialize (He va' eq_refl).
  destruct (py_max_by snd va') as [best | e']; [| discriminate].
  intros H s' a w0 [<- | Hs] Ha.
  - now apply He.
  - exact (IH _ _ _ _ _ H s' a w0 Hs Ha).
Qed.

(** The loops return a result or raise [ValueError] or [TypeError]. *)
Lemma run_env_outcome (states : list State) (actions : list Action)
    (n : Z) (w : W) :
  let r := fst (run_env State_eq_dec Action_eq_dec probs rewards discount
                  states actions (PyInt n) w) in
  returned_result r \/ r = Exc ValueError \/ r = Exc TypeError.
Proof.
  unfold run_env, env_bind, env_lift. cbn [py_range].
  pose proof (@iterate_env_exn (Z.to_nat n) states actions
                (dict_fromkeys State_eq_dec states 0%float) [] w) as Hi.
  destruct (iterate_env State_eq_dec Action_eq_dec probs rewards discount
              (Z.to_nat n) states actions _ [] w) as [[st | e] w1].
  - pose proof (@extract_policy_env_exn actions states (fst st) (snd st) []
                  w1) as Hx.
    destruct (extract_policy_env State_eq_dec Action_eq_dec probs rewards
                discount actions states (fst st) (snd st) [] w1)
      as [[pol | e] w2]; cbn [fst] in *.
    + left. eexists _, _. reflexivity.
    + right. destruct (Hx e eq_refl) as [-> | ->]; [now left | now right].
  - cbn [fst] in *. right.
    destruct (Hi e eq_refl) as [-> | ->]; [now left | now right].
Qed.

(** A run that returns a result has only met arrays. *)
Lemma run_env_arrays (states : list State) (actions : list Action)
    (horizon : number) (w : W) :
  pure_model probs ->
  returned_result
    (fst (run_env State_eq_dec Action_eq_dec probs rewards discount states
            actions horizon w)) ->
  forall s a w0, In s states -> In a actions ->
    exists p, fst (probs s a w0) = NdArray p.
Proof.
  intros Hp. unfold run_env, env_bind, env_lift.
  destruct (py_range horizon) as [n | e];
    [| intros (pol & val & H); discriminate].
  destruct (iterate_env State_eq_dec Action_eq_dec probs rewards discount n
              states actions _ [] w) as [[st | e] w1];
    [| intros (pol & val & H); discriminate].
  pose proof (@extract_policy_env_arrays actions states Hp (fst st) (snd st)
                [] w1) as Hx.
  destruct (extract_policy_env State_eq_dec Action_eq_dec probs rewards
              discount actions states (fst st) (snd st) [] w1)
    as [[pol | e] w2]; [| intros (pol & val & H); discriminate].
  intros _. exact (Hx pol eq_refl).
Qed.

Lemma value_iteration_env_valid (states : list State)
    (actions : list Action) (horizon : number) (w : W) :
  in_unit_interval discount -> valid_horizon horizon ->
  value_iteration_env State_eq_dec Action_eq_dec states actions probs
    rewards horizon discount w
  = run_env State_eq_dec Action_eq_dec probs rewards discount states actions
      horizon w.
Proof.
  intros Hd (n & -> & Hn).
  unfold value_iteration_env, value_iteration_env_body.
  rewrite (in_unit_interval_check _ Hd).
  unfold horizon_invalid_env. cbn [num_lt0].
  destruct (Z.ltb_spec n 0) as [Hlt | _]; [lia |].
  cbv [env_bind env_lift env_ret py_int int_eqb]. now rewrite Z.eqb_refl.
Qed.

End EnvFacts.

(** ** Determinism, results and exceptions over callables *)

Section EnvClaims.
Variables State Action W : Type.
Variable State_eq_dec : forall x y : State, {x = y} + {x <> y}.
Variable Action_eq_dec : forall x y : Action, {x = y} + {x <> y}.
Variable probs : State -> Action -> W -> vector * W.
Variable rewards : State -> Action -> W -> float * W.

Abbreviation call_env :=
  (fun states actions horizon discount =>
     value_iteration_env State_eq_dec Action_eq_dec states actions probs
       rewards horizon discount).

(** C8: when the transition function and the reward function are pure
    (what they return does not depend on the state they are called in),
    two invocations on the same inputs, made in any two states of the
    callables (the second after the first, for instance), have the same
    outcome: the same policy and value function, the same error string or
    the same exception. *)
Theorem pure_callables_deterministic
    (states : list State) (actions : list Action)
    (horizon discount : number) (w1 w2 : W) :
  pure_model probs -> pure_model rewards ->
  env_outcome (call_env states actions horizon discount) w1
  = env_outcome (call_env states actions horizon discount) w2.
Proof.
  intros Hp Hr. unfold env_outcome.
  apply agree_value_iteration. intros s a _ _.
  split; intros v1 v2; [apply Hp | apply Hr].
Qed.

(** With pure callables that return arrays on the listed states and
    actions, the outcome is that of the engine of the first part on the
    arrays' entries. *)
Lemma env_as_arrays
    (states : list State) (actions : list Action)
    (horizon discount : number) (w : W) (t : log State Action) :
  pure_model probs -> pure_model rewards ->
  (forall s a, In s states -> In a actions ->
     exists p, fst (probs s a w) = NdArray p) ->
  env_outcome (call_env states actions horizon discount) w
  = outcome (value_iteration State_eq_dec Action_eq_dec states actions
               (fun s a => entries (fst (probs s a w)))
               (fun s a => fst (rewards s a w)) horizon discount) t.
Proof.
  intros Hp Hr Harr. unfold env_outcome, outcome.
  rewrite <- value_iteration_env_logged.
  apply agree_value_iteration. intros s a Hs Ha.
  destruct (Harr s a Hs Ha) as [p Ep]. split; intros v1 v2.
  - unfold logged_probs. cbn [fst]. rewrite (Hp s a v1 w), Ep. reflexivity.
  - apply Hr.
Qed.

(** X5: for pure callables, with a discount in [0, 1] and a non-negative
    [int] horizon, the call returns a result exactly when there is no
    state, or there is an action and every transition vector is an array
    (not a list) whose length is the number of distinct states, or is 1, or
    there is one state. *)
Theorem callable_call_returns_iff
    (states : list State) (actions : list Action)
    (horizon discount : number) (w : W) :
  in_unit_interval discount -> valid_horizon horizon ->
  pure_model probs -> pure_model rewards ->
  returned_result (env_outcome (call_env states actions horizon discount) w)
  <->
  states = [] \/
  (actions <> [] /\
   forall s a, In s states -> In a actions ->
     exists p, fst (probs s a w) = NdArray p /\
               compatible p (length (uniq State_eq_dec states)) = true).
Proof.
  intros Hd Hh Hp Hr.
  pose proof (@arrays_return_iff State Action State_eq_dec Action_eq_dec
                (fun s a => entries (fst (probs s a w)))
                (fun s a => fst (rewards s a w)) states actions horizon
                discount [] Hd Hh) as Harr.
  split.
  - intros Hres.
    assert (Ha : forall s a, In s states -> In a actions ->
                 exists p, fst (probs s a w) = NdArray p).
    { intros s a Hs Ha. unfold env_outcome in Hres.
      rewrite value_iteration_env_valid in Hres by assumption.
      exact (run_env_arrays State_eq_dec Action_eq_dec rewards discount
               states actions horizon w Hp Hres s a w Hs Ha). }
    rewrite (env_as_arrays states actions horizon discount w [] Hp Hr Ha)
      in Hres.
    apply Harr in Hres. destruct Hres as [E | [Hne Hc]]; [now left | right].
    split; [exact Hne |]. intros s a Hs Hin.
    destruct (Ha s a Hs Hin) as [p Ep]. exists p. split; [exact Ep |].
    specialize (Hc s a Hs Hin). now rewrite Ep in Hc.
  - intros H.
    assert (Ha : forall s a, In s states -> In a actions ->
                 exists p, fst (probs s a w) = NdArray p).
    { destruct H as [-> | [_ Hc]]; [intros s a [] |].
      intros s a Hs Hin. destruct (Hc s a Hs Hin) as (p & Ep & _).
      now exists p. }
    rewrite (env_as_arrays states actions horizon discount w [] Hp Hr Ha).
    apply Harr. destruct H as [E | [Hne Hc]]; [now left | right].
    split; [exact Hne |]. intros s a Hs Hin.
    destruct (Hc s a Hs Hin) as (p & Ep & Hcp). now rewrite Ep.
Qed.

(** X6: with a discount in [0, 1] and a non-negative [int] horizon, a call
    that returns no result raises [ValueError] or [TypeError].  With pure
    callables, it is [ValueError] when every transition vector is an
    array, and a transition vector that is a list leaves no result. *)
Theorem callable_call_exceptions
    (states : list State) (actions : list Action)
    (horizon discount : number) (w : W) :
  in_unit_interval discount -> valid_horizon horizon ->
  let r := env_outcome (call_env states actions horizon discount) w in
  (returned_result r \/ r = Exc ValueError \/ r = Exc TypeError) /\
  (pure_model probs -> pure_model rewards ->
   (forall s a, In s states -> In a actions ->
      exists p, fst (probs s a w) = NdArray p) ->
   returned_result r \/ r = Exc ValueError) /\
  (pure_model probs ->
   (exists s a l, In s states /\ In a actions /\
                  fst (probs s a w) = PyList l) ->
   ~ returned_result r).
Proof.
  intros Hd Hh r. split; [| split].
  - unfold r, env_outcome. rewrite value_iteration_env_valid by assumption.
    destruct Hh as (n & -> & _). apply run_env_outcome.
  - intros Hp Hr Ha. unfold r.
    rewrite (env_as_arrays states actions horizon discount w [] Hp Hr Ha).
    now apply arrays_result_or_ValueError.
  - intros Hp (s & a & l & Hs & Ha & El) Hres. unfold r, env_outcome in Hres.
    rewrite value_iteration_env_valid in Hres by assumption.
    destruct (run_env_arrays State_eq_dec Action_eq_dec rewards discount
                states actions horizon w Hp Hres s a w Hs Ha) as [p Ep].
    congruence.
Qed.
End EnvClaims.

(** ** The callables at concrete models *)

Lemma pure_counted_probs : pure_model counted_probs.
Proof. intros s a w w'. reflexivity. Qed.

Lemma pure_counted_rewards : pure_model counted_rewards.
Proof. intros s a w w'. reflexivity. Qed.

(** A reward that depends on the calls made before is not pure, and two
    invocations then differ: the purity of the model functions is what
    determinism rests on. *)
Lemma impure_rewards_differ :
  env_outcome (value_iteration_env string_dec string_dec ["s0"; "s1"]
                 ["a0"] counted_probs fading_rewards (PyInt 1) (PyInt 1)) 0
  <> env_outcome (value_iteration_env string_dec string_dec ["s0"; "s1"]
                    ["a0"] counted_probs fading_rewards (PyInt 1) (PyInt 1))
       1.
Proof. vm_compute. discriminate. Qed.

(** Transition vectors that are lists make the first product raise
    [TypeError]. *)
Lemma list_vectors_raise :
  env_outcome (value_iteration_env string_dec string_dec ["s0"; "s1"]
                 ["a0"] list_probs counted_rewards (PyInt 2) (PyInt 1)) 0
  = Exc TypeError.
Proof. vm_compute. reflexivity. Qed.

(** C8 at the chain with counting callables: an invocation made before any
    call and one made after five calls. *)
Lemma pure_callables_deterministic_witness :
  env_outcome (value_iteration_env string_dec string_dec ["s0"; "s1"]
                 ["a0"] counted_probs counted_rewards (PyInt 2) (PyInt 1)) 0
  = env_outcome (value_iteration_env string_dec string_dec ["s0"; "s1"]
                   ["a0"] counted_probs counted_rewards (PyInt 2) (PyInt 1))
      5.
Proof.
  exact (@pure_callables_deterministic string string nat string_dec
           string_dec counted_probs counted_rewards ["s0"; "s1"] ["a0"]
           (PyInt 2) (PyInt 1) 0 5 pure_counted_probs pure_counted_rewards).
Defined.

(** X5 at the chain with counting callables. *)
Lemma callable_call_returns_iff_witness :
  returned_result
    (env_outcome (value_iteration_env string_dec string_dec ["s0"; "s1"]
                    ["a0"] counted_probs counted_rewards (PyInt 2)
                    (PyInt 1)) 0).
Proof.
  apply (@callable_call_returns_iff string string nat string_dec string_dec
           counted_probs counted_rewards ["s0"; "s1"] ["a0"] (PyInt 2)
           (PyInt 1) 0).
  - simpl. lia.
  - exists 2%Z. split; [reflexivity | lia].
  - exact pure_counted_probs.
  - exact pure_counted_rewards.
  - right. split; [discriminate |].
    intros s a [<- | [<- | []]] _; eexists; split; reflexivity.
Defined.

(** X6 at the chain with list vectors. *)
Lemma callable_call_exceptions_witness :
  ~ returned_result
      (env_outcome (value_iteration_env string_dec string_dec ["s0"; "s1"]
                      ["a0"] list_probs counted_rewards (PyInt 2)
                      (PyInt 1)) 0).
Proof.
  assert (Hd : in_unit_interval (PyInt 1)) by (simpl; lia).
  assert (Hh : valid_horizon (PyInt 2))
    by (exists 2%Z; split; [reflexivity | lia]).
  destruct (@callable_call_exceptions string string nat string_dec
              string_dec list_probs counted_rewards ["s0"; "s1"] ["a0"]
              (PyInt 2) (PyInt 1) 0 Hd Hh) as (_ & _ & Hlist).
  apply Hlist.
  - intros s a w w'. reflexivity.
  - exists "s0", "a0", (chain_probs "s0" "a0").
    split; [now left |]. split; [now left | reflexivity].
Defined.
